(** * deadcode: a whole-program dead-function detector (golangci-lint plugin)

    A shallow embedding of [runAnalysis] and [Rel] of [deadcode.go], and of
    the sibling revision of the same file that registers the plugin as
    "deadfunc" ([runAnalysis], [GetFilenameRelative]).

    The collaborators the analysis calls ([packages.Load], the SSA builder,
    [rta.Analyze], [regexp.Compile], [filepath.Rel], the file set) are not
    part of the repository: their results are the fields of an [Env].
    Go leaves the iteration order of a map unspecified; the order chosen at
    each [range] is the [MapOrder] argument of the functions below. *)

From Stdlib Require Import Ascii.
From stdpp Require Import base strings gmap list sorting.

Open Scope string_scope.
Open Scope list_scope.
Open Scope nat_scope.

(** ** go/token *)

Module token.

(** [token.Pos] is an [int]; [NoPos] is its zero value. *)
Definition Pos := Z.
Definition NoPos : Pos := 0%Z.

(** [func (p Pos) IsValid() bool { return p != NoPos }] *)
Definition IsValid (p : Pos) : bool := negb (p =? NoPos)%Z.

(** [token.Position]: a comparable struct, used as a map key. *)
Record Position := mkPosition {
  Filename : string;
  Offset : Z;
  Line : Z;
  Column : Z
}.

#[global] Instance Position_eq_dec : EqDecision Position.
Proof. solve_decision. Defined.

#[global] Instance Position_countable : Countable Position :=
  inj_countable'
    (λ p, (Filename p, Offset p, Line p, Column p))
    (λ t, let '(f, o, l, c) := t in mkPosition f o l c)
    (λ p, match p with mkPosition _ _ _ _ => eq_refl end).

End token.

(** ** go/ssa *)

Module ssa.

(** [*ssa.Function]: [addr] stands for the pointer, the other fields for
    what [fn.Name()], [fn.Pos()] and [fn.Pkg.Pkg.Path()] return. *)
Record Function := mkFunction {
  addr : positive;
  Name : string;
  Pos : token.Pos;
  PkgPath : string
}.

#[global] Instance Function_eq_dec : EqDecision Function.
Proof. solve_decision. Defined.

#[global] Instance Function_countable : Countable Function :=
  inj_countable'
    (λ f, (addr f, Name f, Pos f, PkgPath f))
    (λ t, let '(a, n, p, k) := t in mkFunction a n p k)
    (λ f, match f with mkFunction _ _ _ _ => eq_refl end).

(** [*ssa.Package], as far as [main.Func("init")] and [main.Func("main")]
    look at it. *)
Record Package := mkPackage {
  Func : string → Function
}.

End ssa.

(** ** go/ast and go/packages *)

Module packages.

(** A top-level declaration. A function declaration carries the SSA
    function that [prog.FuncValue(p.TypesInfo.Defs[decl.Name])] resolves
    it to. *)
Inductive Decl :=
  | FuncDecl (fn : ssa.Function)
  | GenDecl.

#[global] Instance Decl_eq_dec : EqDecision Decl.
Proof. solve_decision. Defined.

(** [*ast.File]: [FileName] is [p.Fset.File(file.Pos()).Name()],
    [IsGenerated] is [ast.IsGenerated(file)]. *)
Record File := mkFile {
  FileName : string;
  Decls : list Decl;
  IsGenerated : bool
}.

#[global] Instance File_eq_dec : EqDecision File.
Proof. solve_decision. Defined.

(** [*packages.Module]. *)
Record Module := mkModule {
  Path : string
}.

#[global] Instance Module_eq_dec : EqDecision Module.
Proof. solve_decision. Defined.

(** [*packages.Package]; a nil [Module] is [None]. *)
Record Package := mkPackage {
  PkgPath : string;
  Module_ : option Module;
  Syntax : list File
}.

#[global] Instance Package_eq_dec : EqDecision Package.
Proof. solve_decision. Defined.

End packages.

(** ** go/types *)

Module types.

(** A [types.Type] ([Typ] here), as far as [ReceiverNamed] tells types apart: a
    [*types.Named], a [*types.Pointer] with its [Elem()], a [*types.Alias]
    with the type it is declared equal to, or any other type. *)
Inductive Typ :=
  | Named (name : string)
  | Pointer (elem : Typ)
  | Alias (rhs : Typ)
  | Other (descr : string).

#[global] Instance Typ_eq_dec : EqDecision Typ.
Proof. solve_decision. Defined.

(** [types.Unalias]: follows the chain of aliases to the first type that is
    not an alias. *)
Fixpoint Unalias (t : Typ) : Typ :=
  match t with
  | Alias rhs => Unalias rhs
  | _ => t
  end.

(** [*types.Var], seen through [recv.Type()]. *)
Record Var := mkVar {
  Type_ : Typ
}.

(** [t] under [k] alias declarations. *)
Fixpoint aliases (k : nat) (t : Typ) : Typ :=
  match k with
  | O => t
  | S k => Alias (aliases k t)
  end.

End types.

(** ** go/ast and go/analysis *)

Module ast.

(** What a node is, as far as the type assertion to [*ast.FuncDecl] asks. *)
Inductive Kind :=
  | FileNode
  | FuncDeclNode
  | OtherNode.

#[global] Instance Kind_eq_dec : EqDecision Kind.
Proof. solve_decision. Defined.

(** An [ast.Node]: its kind, its [Pos()] and its children in the order
    [ast.Walk] meets them. *)
#[local] Unset Elimination Schemes.
Inductive Node :=
  | mkNode (kind : Kind) (pos : token.Pos) (children : list Node).
#[local] Set Elimination Schemes.

Definition kind (n : Node) : Kind := match n with mkNode k _ _ => k end.
Definition Pos (n : Node) : token.Pos := match n with mkNode _ p _ => p end.
Definition children (n : Node) : list Node := match n with mkNode _ _ cs => cs end.

(** [ast.Inspect(node, f)]: calls [f(node)]; if it answers [true], inspects
    the children in turn and then calls [f(nil)]. The callback [f] works on
    a state [S]; [None] is the nil node. *)
Fixpoint Inspect {S : Type} (f : option Node → S → S * bool) (node : Node) (s : S)
  : S :=
  match node with
  | mkNode _ _ cs =>
      let r := f (Some node) s in
      if r.2 then
        let s' := (fix each (cs : list Node) (s : S) : S :=
                     match cs with
                     | [] => s
                     | c :: cs => each cs (Inspect f c s)
                     end) cs r.1 in
        (f None s').1
      else r.1
  end.

(** The nodes of a tree in the order [Inspect] meets them. *)
Fixpoint nodes (node : Node) : list Node :=
  match node with
  | mkNode _ _ cs =>
      node :: (fix each (cs : list Node) : list Node :=
                 match cs with
                 | [] => []
                 | c :: cs => nodes c ++ each cs
                 end) cs
  end.

(** The positions of the function declarations of a tree, in that order. *)
Definition funcDecls (node : Node) : list token.Pos :=
  Pos <$> filter (λ n, kind n = FuncDeclNode) (nodes node).

End ast.

Module analysis.

(** [analysis.Diagnostic]; [SuggestedFixes] is nil in both revisions. *)
Record Diagnostic := mkDiagnostic {
  Pos : token.Pos;
  End_ : token.Pos;
  Category : string;
  Message : string
}.

#[global] Instance Diagnostic_eq_dec : EqDecision Diagnostic.
Proof. solve_decision. Defined.

(** [*analysis.Pass]: the files of the package under analysis and
    [pass.Fset.Position]. What [pass.Report] is given is collected in a
    list, in the order of the calls. *)
Record Pass := mkPass {
  Files : list ast.Node;
  Position : token.Pos → token.Position
}.

End analysis.

(** ** regexp *)

Module regexp.

(** A compiled [*regexp.Regexp], seen through [MatchString]. *)
Record Regexp := mkRegexp {
  MatchString : string → bool
}.

(** The bytes [regexp.QuoteMeta] escapes: [\.+*?()|[]{}^$]. *)
Definition special (c : ascii) : bool :=
  bool_decide (c ∈ String.list_ascii_of_string "\.+*?()|[]{}^$").

(** [regexp.QuoteMeta]: a backslash before every special byte. *)
Fixpoint QuoteMeta (s : string) : string :=
  match s with
  | EmptyString => EmptyString
  | String c s' =>
      if special c then String "\"%char (String c (QuoteMeta s'))
      else String c (QuoteMeta s')
  end.

End regexp.

(** ** Errors and the environment *)

(** An [error] is modelled by its message. *)
Definition error := string.

(** The collaborators of one process. *)
Record Env := mkEnv {
  (** [os.Getwd()] at process start *)
  os_Getwd : string * option error;
  (** [filepath.Rel(basepath, targpath)] *)
  filepath_Rel : string → string → error + string;
  (** [packages.Load(cfg, "./...")] for [cfg.Tests] *)
  packages_Load : bool → error + list packages.Package;
  (** [packages.PrintErrors(initial)] *)
  packages_PrintErrors : list packages.Package → Z;
  (** the packages in the order [packages.Visit(initial, nil, post)] calls
      [post] on them *)
  packages_Visit : list packages.Package → list packages.Package;
  (** [regexp.Compile(expr)] *)
  regexp_Compile : string → error + regexp.Regexp;
  (** [ssautil.AllPackages], [prog.Build] and [ssautil.MainPackages] *)
  ssautil_MainPackages : list packages.Package → list ssa.Package;
  (** [rta.Analyze(roots, false).Reachable]; the value is [AddrTaken] *)
  rta_Analyze : list ssa.Function → gmap ssa.Function bool;
  (** [prog.Fset.Position(pos)] *)
  Fset_Position : token.Pos → token.Position
}.

(** The order in which one run of the program ranges over its maps: any
    rearrangement of the keys. *)
Record MapOrder := mkMapOrder {
  range : ∀ A : Type, list A → list A;
  range_perm : ∀ (A : Type) (l : list A), range A l ≡ₚ l
}.
Arguments range _ {A} _.

(** The keys of a Go map. *)
Definition keys `{Countable K} {V} (m : gmap K V) : list K := (map_to_list m).*1.

(** [m[k]] on a [map[K]bool]: the zero value [false] when [k] is missing. *)
Definition index `{Countable K} (m : gmap K bool) (k : K) : bool :=
  default false (m !! k).

(** ** The stages both revisions share *)

Section analysis.
Variable env : Env.
Variable rt : MapOrder.

(** [var cwd, _ = os.Getwd()] *)
Definition cwd : string := (os_Getwd env).1.

(** [prog.Fset.Position(fn.Pos())] *)
Definition posn (fn : ssa.Function) : token.Position :=
  Fset_Position env (ssa.Pos fn).

(** [roots = append(roots, main.Func("init"), main.Func("main"))] *)
Definition roots (mains : list ssa.Package) : list ssa.Function :=
  foldl (λ roots main, roots ++ [ssa.Func main "init"; ssa.Func main "main"])
        [] mains.

(** The body of the callback given to [packages.Visit]. *)
Definition visitDecl (sourceFuncs : list ssa.Function) (decl : packages.Decl)
  : list ssa.Function :=
  match decl with
  | packages.FuncDecl fn => sourceFuncs ++ [fn]
  | packages.GenDecl => sourceFuncs
  end.

Definition visitFile (st : list ssa.Function * gmap string bool)
    (file : packages.File) : list ssa.Function * gmap string bool :=
  let sourceFuncs := foldl visitDecl st.1 (packages.Decls file) in
  let generated :=
    if packages.IsGenerated file
    then <[packages.FileName file := true]> st.2
    else st.2 in
  (sourceFuncs, generated).

Definition visitPackage (st : list ssa.Function * gmap string bool)
    (p : packages.Package) : list ssa.Function * gmap string bool :=
  foldl visitFile st (packages.Syntax p).

(** [sourceFuncs] and [generated] after [packages.Visit]. *)
Definition gather (initial : list packages.Package)
  : list ssa.Function * gmap string bool :=
  foldl visitPackage ([], ∅) (packages_Visit env initial).

(** One turn of [for fn := range res.Reachable]. *)
Definition markReachable (reachablePosn : gmap token.Position bool)
    (fn : ssa.Function) : gmap token.Position bool :=
  if token.IsValid (ssa.Pos fn) || String.eqb (ssa.Name fn) "init"
  then <[posn fn := true]> reachablePosn
  else reachablePosn.

Definition reachable (res : gmap ssa.Function bool) : gmap token.Position bool :=
  foldl markReachable ∅ (range rt (keys res)).

(** One turn of [for _, fn := range sourceFuncs]: the state is
    [(reachablePosn, byPkgPath)]. *)
Definition group
    (st : gmap token.Position bool * gmap string (gmap ssa.Function bool))
    (fn : ssa.Function)
  : gmap token.Position bool * gmap string (gmap ssa.Function bool) :=
  let '(reachablePosn, byPkgPath) := st in
  if negb (index reachablePosn (posn fn)) then
    let reachablePosn := <[posn fn := true]> reachablePosn in
    let pkgpath := ssa.PkgPath fn in
    let m := match byPkgPath !! pkgpath with
             | Some m => m
             | None => ∅
             end in
    (reachablePosn, <[pkgpath := <[fn := true]> m]> byPkgPath)
  else st.

Definition groupAll (reachablePosn : gmap token.Position bool)
    (sourceFuncs : list ssa.Function) :=
  foldl group (reachablePosn, ∅) sourceFuncs.

(** The local variables of [runAnalysis] once [initial] is loaded. *)
Definition mains (initial : list packages.Package) : list ssa.Package :=
  ssautil_MainPackages env initial.
Definition sourceFuncs (initial : list packages.Package) : list ssa.Function :=
  (gather initial).1.
Definition generated (initial : list packages.Package) : gmap string bool :=
  (gather initial).2.
Definition res (initial : list packages.Package) : gmap ssa.Function bool :=
  rta_Analyze env (roots (mains initial)).
Definition reachablePosn (initial : list packages.Package)
  : gmap token.Position bool :=
  reachable (res initial).
Definition byPkgPath (initial : list packages.Package)
  : gmap string (gmap ssa.Function bool) :=
  (groupAll (reachablePosn initial) (sourceFuncs initial)).2.

End analysis.

(** ** Views of a run, used to state its properties *)

(** The function of a declaration, if it declares one. *)
Definition declared (decl : packages.Decl) : list ssa.Function :=
  match decl with
  | packages.FuncDecl fn => [fn]
  | packages.GenDecl => []
  end.

Section views.
Variable env : Env.

(** The functions [group] adds to [byPkgPath], in the order of
    [sourceFuncs]: those whose position is not in [seen] when their turn
    comes. *)
Fixpoint firsts (seen : gmap token.Position bool) (l : list ssa.Function)
  : list ssa.Function :=
  match l with
  | [] => []
  | fn :: l =>
      if index seen (posn env fn) then firsts seen l
      else fn :: firsts (<[posn env fn := true]> seen) l
  end.

(** The functions a report loop turns into issues when its outer loop
    visits the package paths in [order] and passes over those [skipped]. *)
Definition survivors (rt : MapOrder) (skipped : string → bool)
    (generated : gmap string bool)
    (byPkgPath : gmap string (gmap ssa.Function bool))
    (order : list string) : list ssa.Function :=
  pkgpath ← filter (λ p, skipped p = false) order;
  filter (λ fn, index generated (token.Filename (posn env fn)) = false)
         (range rt (keys (default ∅ (byPkgPath !! pkgpath)))).

(** The test of [for fn := range res.Reachable]. *)
Definition listed (fn : ssa.Function) : bool :=
  token.IsValid (ssa.Pos fn) || String.eqb (ssa.Name fn) "init".

(** Every group of [byPkgPath] holds functions of its own package only. *)
Definition sorted_out (byPkgPath : gmap string (gmap ssa.Function bool)) : Prop :=
  ∀ pkg fn, fn ∈ keys (default ∅ (byPkgPath !! pkg)) → ssa.PkgPath fn = pkg.

(** The functions declared at one position all belong to one package. *)
Definition onePackage (l : list ssa.Function) (F : ssa.Function) : Prop :=
  Forall (λ G, posn env G = posn env F → ssa.PkgPath G = ssa.PkgPath F) l.

#[global] Instance onePackage_dec l F : Decision (onePackage l F).
Proof. unfold onePackage. apply _. Defined.

End views.

(** ** deadcode.go *)

Module Deadcode.

(** [type Issue struct] *)
Record Issue := mkIssue {
  Func : string;
  Filename : string;
  Line : Z
}.

#[global] Instance Issue_eq_dec : EqDecision Issue.
Proof. solve_decision. Defined.

(** [type Settings struct] *)
Record Settings := mkSettings {
  Test : bool;
  Filter : string
}.

(** [func Rel(filename string) string] *)
Definition Rel (env : Env) (filename : string) : string :=
  match filepath_Rel env (cwd env) filename with
  | inr rel => rel
  | inl _ => filename
  end.

Section report.
Variable env : Env.
Variable rt : MapOrder.
(** [filter]: [None] is the nil [*regexp.Regexp]. *)
Variable filter : option regexp.Regexp.
Variable generated : gmap string bool.
Variable byPkgPath : gmap string (gmap ssa.Function bool).

(** One turn of [for fn := range maps.Keys(m)]. *)
Definition appendIssue (issues : list Issue) (fn : ssa.Function) : list Issue :=
  let pos := posn env fn in
  if index generated (token.Filename pos) then issues
  else issues ++ [ {| Func := ssa.Name fn;
                      Filename := Rel env (token.Filename pos);
                      Line := token.Line pos |} ].

(** [filter != nil && !filter.MatchString(pkgpath)] *)
Definition skipped (pkgpath : string) : bool :=
  match filter with
  | Some re => negb (regexp.MatchString re pkgpath)
  | None => false
  end.

(** One turn of [for pkgpath := range maps.Keys(byPkgPath)]; indexing a
    map by a missing key gives the nil map, which has no keys. *)
Definition reportPackage (issues : list Issue) (pkgpath : string) : list Issue :=
  if skipped pkgpath then issues
  else
    let m := default ∅ (byPkgPath !! pkgpath) in
    foldl appendIssue issues (range rt (keys m)).

Definition buildIssues : list Issue :=
  foldl reportPackage [] (range rt (keys byPkgPath)).

End report.

(** [var filter *regexp.Regexp], compiled only when [filterFlag != ""]. *)
Definition compileFilter (env : Env) (filterFlag : string)
  : error + option regexp.Regexp :=
  if bool_decide (filterFlag ≠ "") then
    match regexp_Compile env filterFlag with
    | inl err => inl err
    | inr re => inr (Some re)
    end
  else inr None.

(** [func runAnalysis(settings Settings) ([]Issue, error)]: the nil slice
    is [[]], the nil error is [None]. *)
Definition runAnalysis (env : Env) (rt : MapOrder) (settings : Settings)
  : list Issue * option error :=
  let testFlag := Test settings in
  let filterFlag := Filter settings in
  match packages_Load env testFlag with
  | inl err => ([], Some ("Load: " +:+ err))
  | inr initial =>
    if bool_decide (length initial = 0) then ([], Some "no find packages")
    else if bool_decide (0 < packages_PrintErrors env initial)%Z
    then ([], Some "packages contain errors")
    else
      match compileFilter env filterFlag with
      | inl err => ([], Some ("failed create filter: " +:+ err))
      | inr filter =>
        if bool_decide (length (mains env initial) = 0)
        then ([], Some "no find main packages")
        else
          (buildIssues env rt filter (generated env initial)
             (byPkgPath env rt initial),
           None)
      end
  end.

(** The issue [appendIssue] builds for [fn]. *)
Definition issueOf (env : Env) (fn : ssa.Function) : Issue :=
  {| Func := ssa.Name fn;
     Filename := Rel env (token.Filename (posn env fn));
     Line := token.Line (posn env fn) |}.

(** The functions behind the issues of a run that loaded [initial] and
    compiled [filter]. *)
Definition reportedFuncs (env : Env) (rt : MapOrder)
    (filter : option regexp.Regexp) (initial : list packages.Package)
  : list ssa.Function :=
  survivors env rt (skipped filter) (generated env initial)
    (byPkgPath env rt initial) (range rt (keys (byPkgPath env rt initial))).

(** The run gets past every check, with [initial] loaded and [filter]
    compiled. *)
Definition passes (env : Env) (settings : Settings)
    (initial : list packages.Package) (filter : option regexp.Regexp) : Prop :=
  packages_Load env (Test settings) = inr initial
  ∧ initial ≠ []
  ∧ (packages_PrintErrors env initial ≤ 0)%Z
  ∧ compileFilter env (Filter settings) = inr filter
  ∧ mains env initial ≠ [].

(** A fatal condition holds: the load fails, or it loads no package, or
    packages with errors, or the filter does not compile, or there is no
    main package. *)
Definition fatal (env : Env) (settings : Settings) : Prop :=
  match packages_Load env (Test settings) with
  | inl _ => True
  | inr initial =>
      initial = []
      ∨ (0 < packages_PrintErrors env initial)%Z
      ∨ (∃ err, compileFilter env (Filter settings) = inl err)
      ∨ mains env initial = []
  end.

(** [type DeadCode struct] *)
Record DeadCode := mkDeadCode {
  issues : list Issue
}.

Section plugin.
(** The settings as golangci-lint hands them over, and
    [register.DecodeSettings[Settings]]. *)
Variable any : Type.
Variable DecodeSettings : any → error + Settings.

(** [func NewDeadCode(settings any) (register.LinterPlugin, error)] *)
Definition NewDeadCode (env : Env) (rt : MapOrder) (settings : any)
  : option DeadCode * option error :=
  match DecodeSettings settings with
  | inl err => (None, Some err)
  | inr s =>
      let r := runAnalysis env rt s in
      match r.2 with
      | Some err => (None, Some err)
      | None => (Some {| issues := r.1 |}, None)
      end
  end.

End plugin.

(** The callback [run] gives to [ast.Inspect] for one issue; the state is
    the list of diagnostics reported so far. *)
Definition visit (pass : analysis.Pass) (issue : Issue) (n : option ast.Node)
    (reported : list analysis.Diagnostic) : list analysis.Diagnostic * bool :=
  match n with
  | Some funcDecl =>
      if decide (ast.kind funcDecl = ast.FuncDeclNode) then
        let funcDeclPos := analysis.Position pass (ast.Pos funcDecl) in
        if decide (token.Line funcDeclPos = Line issue) then
          (reported ++ [ {| analysis.Pos := ast.Pos funcDecl;
                            analysis.End_ := 0%Z;
                            analysis.Category := "";
                            analysis.Message :=
                              "func `" +:+ Func issue +:+ "` is unused" |} ],
           true)
        else (reported, true)
      else (reported, true)
  | None => (reported, true)
  end.

(** One turn of [for _, issue := range d.issues], for the file [file]
    whose relative name is [filename]. *)
Definition runIssue (pass : analysis.Pass) (file : ast.Node) (filename : string)
    (reported : list analysis.Diagnostic) (issue : Issue)
  : list analysis.Diagnostic :=
  if decide (filename ≠ Filename issue) then reported
  else ast.Inspect (visit pass issue) file reported.

(** One turn of [for _, file := range pass.Files]. *)
Definition runFile (env : Env) (d : DeadCode) (pass : analysis.Pass)
    (reported : list analysis.Diagnostic) (file : ast.Node)
  : list analysis.Diagnostic :=
  let filename :=
    Rel env (token.Filename (analysis.Position pass (ast.Pos file))) in
  foldl (runIssue pass file filename) reported (issues d).

(** [func (d *DeadCode) run(pass *analysis.Pass) (any, error)]: the
    diagnostics reported, and the error, always nil (the result is nil
    too). *)
Definition run (env : Env) (d : DeadCode) (pass : analysis.Pass)
  : list analysis.Diagnostic * option error :=
  (foldl (runFile env d pass) [] (analysis.Files pass), None).

(** [func ReceiverNamed(recv *types.Var) (isPtr bool, named *types.Named)];
    a nil [named] is [None], a named type is given by its name. *)
Definition ReceiverNamed (recv : types.Var) : bool * option string :=
  let t := types.Type_ recv in
  let r := match types.Unalias t with
           | types.Pointer elem => (true, elem)
           | _ => (false, t)
           end in
  let named := match types.Unalias r.2 with
               | types.Named name => Some name
               | _ => None
               end in
  (r.1, named).

(** The diagnostic [visit] reports for [issue] at the position [pos]. *)
Definition diagnosticOf (issue : Issue) (pos : token.Pos) : analysis.Diagnostic :=
  {| analysis.Pos := pos;
     analysis.End_ := 0%Z;
     analysis.Category := "";
     analysis.Message := "func `" +:+ Func issue +:+ "` is unused" |}.

(** The function declarations of [file] on the line of [issue], in the
    order [ast.Inspect] meets them. *)
Definition onLine (pass : analysis.Pass) (issue : Issue) (file : ast.Node)
  : list token.Pos :=
  filter (λ p, token.Line (analysis.Position pass p) = Line issue)
         (ast.funcDecls file).

End Deadcode.

(** ** The sibling revision (plugin "deadfunc") *)

Module Deadfunc.

(** [type Issue struct] *)
Record Issue := mkIssue {
  Name : string;
  Filename : string;
  Line : Z;
  Pos : token.Pos
}.

#[global] Instance Issue_eq_dec : EqDecision Issue.
Proof. solve_decision. Defined.

(** A call either returns or ends the process in [log.Fatalf], which
    prints the message and calls [os.Exit(1)]. *)
Inductive outcome (A : Type) :=
  | Return (a : A)
  | Fatal (msg : string).
Arguments Return {A} a.
Arguments Fatal {A} msg.

(** [func GetFilenameRelative(filename string) string] *)
Definition GetFilenameRelative (env : Env) (filename : string) : string :=
  match filepath_Rel env (cwd env) filename with
  | inr rel => rel
  | inl _ => filename
  end.

(** The pattern that replaces ["<module>"]; [first] is [initial[0]]. *)
Definition moduleFilter (first : packages.Package) : string :=
  match packages.Module_ first with
  | Some module =>
      if bool_decide (packages.Path module ≠ "")
      then "^" +:+ regexp.QuoteMeta (packages.Path module) +:+ "\b"
      else ""
  | None => ""
  end.

Section report.
Variable env : Env.
Variable rt : MapOrder.
Variable filter : regexp.Regexp.
Variable generated : gmap string bool.
Variable byPkgPath : gmap string (gmap ssa.Function bool).

(** One turn of [for _, fn := range slices.Collect(maps.Keys(m))]. *)
Definition appendIssue (issues : list Issue) (fn : ssa.Function) : list Issue :=
  let pos := posn env fn in
  if index generated (token.Filename pos) then issues
  else issues ++ [ {| Name := ssa.Name fn;
                      Filename := GetFilenameRelative env (token.Filename pos);
                      Line := token.Line pos;
                      Pos := ssa.Pos fn |} ].

(** One turn of [for _, pkgpath := range slices.Sorted(maps.Keys(byPkgPath))]. *)
Definition reportPackage (issues : list Issue) (pkgpath : string) : list Issue :=
  if negb (regexp.MatchString filter pkgpath) then issues
  else
    let m := default ∅ (byPkgPath !! pkgpath) in
    foldl appendIssue issues (range rt (keys m)).

(** [slices.Sorted] collects the keys and sorts them ascending; on
    strings the order is the lexicographic order of the bytes. *)
Definition buildIssues : list Issue :=
  foldl reportPackage [] (merge_sort String.le (range rt (keys byPkgPath))).

End report.

(** [func runAnalysis() ([]Issue, error)] *)
Definition runAnalysis (env : Env) (rt : MapOrder)
  : outcome (list Issue * option error) :=
  let testFlag := false in
  let filterFlag := "<module>" in
  match packages_Load env testFlag with
  | inl err => Fatal ("Load: " +:+ err)
  | inr initial =>
    match initial with
    | [] => Fatal "no packages"
    | first :: _ =>
      if bool_decide (0 < packages_PrintErrors env initial)%Z
      then Fatal "packages contain errors"
      else
        let filterFlag :=
          if bool_decide (filterFlag = "<module>") then moduleFilter first
          else filterFlag in
        match regexp_Compile env filterFlag with
        | inl err => Fatal ("-filter: " +:+ err)
        | inr filter =>
          if bool_decide (length (mains env initial) = 0)
          then Fatal "no main packages"
          else
            Return (buildIssues env rt filter (generated env initial)
                      (byPkgPath env rt initial),
                    None)
        end
    end
  end.

(** The issue [appendIssue] builds for [fn]. *)
Definition issueOf (env : Env) (fn : ssa.Function) : Issue :=
  {| Name := ssa.Name fn;
     Filename := GetFilenameRelative env (token.Filename (posn env fn));
     Line := token.Line (posn env fn);
     Pos := ssa.Pos fn |}.

(** The functions behind the issues of a run that loaded [initial] and
    compiled [filter]. *)
Definition reportedFuncs (env : Env) (rt : MapOrder)
    (filter : regexp.Regexp) (initial : list packages.Package)
  : list ssa.Function :=
  survivors env rt (λ p, negb (regexp.MatchString filter p))
    (generated env initial) (byPkgPath env rt initial)
    (merge_sort String.le (range rt (keys (byPkgPath env rt initial)))).

(** The run gets past every check, with [initial] loaded and [filter]
    compiled. *)
Definition passes (env : Env) (initial : list packages.Package)
    (filter : regexp.Regexp) : Prop :=
  packages_Load env false = inr initial
  ∧ (packages_PrintErrors env initial ≤ 0)%Z
  ∧ (∃ first, head initial = Some first
            ∧ regexp_Compile env (moduleFilter first) = inr filter)
  ∧ mains env initial ≠ [].

(** [type DeadCode struct] *)
Record DeadCode := mkDeadCode {
  issues : list Issue
}.

(** [func New(settings any) (register.LinterPlugin, error)]: the settings
    are not looked at. *)
Definition New {any : Type} (env : Env) (rt : MapOrder) (settings : any)
  : outcome (option DeadCode * option error) :=
  match runAnalysis env rt with
  | Fatal msg => Fatal msg
  | Return r =>
      match r.2 with
      | Some err => Return (None, Some err)
      | None => Return (Some {| issues := r.1 |}, None)
      end
  end.

(** One turn of [for _, issue := range d.issues], for a file at [pos]. *)
Definition runIssue (env : Env) (pos : token.Position)
    (reported : list analysis.Diagnostic) (issue : Issue)
  : list analysis.Diagnostic :=
  if decide (GetFilenameRelative env (token.Filename pos) = Filename issue) then
    reported ++ [ {| analysis.Pos := Pos issue;
                     analysis.End_ := 0%Z;
                     analysis.Category := "deadcode";
                     analysis.Message := "unused func `" +:+ Name issue +:+ "`" |} ]
  else reported.

(** One turn of [for _, file := range pass.Files]. *)
Definition runFile (env : Env) (d : DeadCode) (pass : analysis.Pass)
    (reported : list analysis.Diagnostic) (file : ast.Node)
  : list analysis.Diagnostic :=
  let pos := analysis.Position pass (ast.Pos file) in
  foldl (runIssue env pos) reported (issues d).

(** [func (d *DeadCode) run(pass *analysis.Pass) (any, error)] *)
Definition run (env : Env) (d : DeadCode) (pass : analysis.Pass)
  : list analysis.Diagnostic * option error :=
  (foldl (runFile env d pass) [] (analysis.Files pass), None).

(** [func ReceiverNamed(recv *types.Var) (isPtr bool, named *types.Named)] *)
Definition ReceiverNamed (recv : types.Var) : bool * option string :=
  let t := types.Type_ recv in
  let r := match types.Unalias t with
           | types.Pointer elem => (true, elem)
           | _ => (false, t)
           end in
  let named := match types.Unalias r.2 with
               | types.Named name => Some name
               | _ => None
               end in
  (r.1, named).

(** The diagnostic [runIssue] reports for [issue]. *)
Definition diagnosticOf (issue : Issue) : analysis.Diagnostic :=
  {| analysis.Pos := Pos issue;
     analysis.End_ := 0%Z;
     analysis.Category := "deadcode";
     analysis.Message := "unused func `" +:+ Name issue +:+ "`" |}.

End Deadfunc.

(** ** A small program to run the analysis on

    Module [app] in the directory [/w]: package [app] (a main package, with
    a hand-written and a generated file), package [app/internal/util], and
    the package [dep/x] of another module, imported by [app]. *)

Module Example.

Definition f_init   := ssa.mkFunction 1 "init" token.NoPos "app".
Definition f_main   := ssa.mkFunction 2 "main" 103%Z "app".
Definition f_used   := ssa.mkFunction 3 "used" 107%Z "app".
Definition f_helper := ssa.mkFunction 4 "helper" 111%Z "app".
Definition f_gen    := ssa.mkFunction 5 "genHelper" 209%Z "app".
Definition f_unused := ssa.mkFunction 6 "Unused" 303%Z "app/internal/util".
Definition f_trim   := ssa.mkFunction 7 "Trim" 308%Z "app/internal/util".
Definition f_idle   := ssa.mkFunction 8 "Idle" 405%Z "dep/x".
(** a method [func (t T) init()] of package [app]: its name is "init" *)
Definition f_tinit  := ssa.mkFunction 9 "init" 115%Z "app".
(** the SSA functions of the test variant of [app], built from the same
    files *)
Definition f_main'   := ssa.mkFunction 10 "main" 103%Z "app".
Definition f_used'   := ssa.mkFunction 11 "used" 107%Z "app".
Definition f_helper' := ssa.mkFunction 12 "helper" 111%Z "app".
Definition f_gen'    := ssa.mkFunction 13 "genHelper" 209%Z "app".

Definition main_go : string := "/w/main.go".
Definition gen_go : string := "/w/zz_generated.go".
Definition util_go : string := "/w/internal/util/util.go".
Definition x_go : string := "/go/pkg/mod/dep/x/x.go".

(** The file set: four files, based at 100, 200, 300 and 400; the line of
    a position is taken equal to its offset in the file. *)
Definition Position (p : token.Pos) : token.Position :=
  if bool_decide (100 < p < 200)%Z then token.mkPosition main_go (p - 100) (p - 100) 1
  else if bool_decide (200 < p < 300)%Z then token.mkPosition gen_go (p - 200) (p - 200) 1
  else if bool_decide (300 < p < 400)%Z then token.mkPosition util_go (p - 300) (p - 300) 1
  else if bool_decide (400 < p < 500)%Z then token.mkPosition x_go (p - 400) (p - 400) 1
  else token.mkPosition "" 0 0 0.

Definition app_module := Some (packages.mkModule "app").
Definition dep_module := Some (packages.mkModule "dep").

Definition pkg_app (decls : list packages.Decl) := packages.mkPackage "app" app_module
  [ packages.mkFile main_go decls false;
    packages.mkFile gen_go [packages.GenDecl; packages.FuncDecl f_gen] true ].
Definition pkg_util := packages.mkPackage "app/internal/util" app_module
  [ packages.mkFile util_go [packages.FuncDecl f_unused; packages.FuncDecl f_trim] false ].
Definition pkg_x := packages.mkPackage "dep/x" dep_module
  [ packages.mkFile x_go [packages.FuncDecl f_idle] false ].

Definition app_decls : list packages.Decl :=
  [ packages.GenDecl; packages.FuncDecl f_main; packages.FuncDecl f_used;
    packages.FuncDecl f_helper ].

Definition pkg_app_test := packages.mkPackage "app" app_module
  [ packages.mkFile main_go
      [ packages.GenDecl; packages.FuncDecl f_main'; packages.FuncDecl f_used';
        packages.FuncDecl f_helper' ] false;
    packages.mkFile gen_go [packages.GenDecl; packages.FuncDecl f_gen'] true ].

Definition ssa_app := ssa.mkPackage
  (λ name, if String.eqb name "init" then f_init else f_main).

(** [filepath.Rel] at the two bases used here: [/w], and the empty base
    of a process whose [os.Getwd] failed. *)
Definition Rel (basepath targpath : string) : error + string :=
  if bool_decide (basepath = "/w") && bool_decide (targpath = "/w") then inr "."
  else if bool_decide (basepath = "/w") && String.prefix "/w/" targpath
  then inr (String.substring 3 (String.length targpath - 3) targpath)
  else if bool_decide (basepath = "/w") && String.prefix "/" targpath
  then inr ("../" +:+ String.substring 1 (String.length targpath - 1) targpath)
  else inl ("Rel: can't make " +:+ targpath +:+ " relative to " +:+ basepath).

(** [\w] of the regexp syntax. *)
Definition word (c : ascii) : bool :=
  let n := Ascii.nat_of_ascii c in
  bool_decide (48 ≤ n ≤ 57 ∨ 65 ≤ n ≤ 90 ∨ 97 ≤ n ≤ 122 ∨ n = 95).

(** Does [s] start with the literal [lit], at a word boundary if [b]?
    [prev] is whether the byte before [s] is a word byte. *)
Fixpoint matchLiteral (lit : string) (b prev : bool) (s : string) : bool :=
  match lit with
  | EmptyString =>
      if b then
        match s with
        | EmptyString => prev
        | String c _ => xorb prev (word c)
        end
      else true
  | String l lit' =>
      match s with
      | EmptyString => false
      | String c s' => Ascii.eqb l c && matchLiteral lit' b (word c) s'
      end
  end.

(** [regexp.Compile] on the patterns used here: ["^"] followed by bytes
    that are not special, optionally ended by ["\b"]; the empty pattern;
    and the ill-formed ["("] . Other patterns are outside this table. *)
Definition plain (s : string) : bool :=
  forallb (λ c, negb (regexp.special c)) (String.list_ascii_of_string s).

Definition Compile (expr : string) : error + regexp.Regexp :=
  match expr with
  | EmptyString => inr (regexp.mkRegexp (λ _, true))
  | String "^"%char rest =>
      let n := String.length rest in
      if plain rest then inr (regexp.mkRegexp (matchLiteral rest false false))
      else if (2 <=? n)%nat && String.eqb (String.substring (n - 2) 2 rest) "\b"
              && plain (String.substring 0 (n - 2) rest)
      then inr (regexp.mkRegexp
                  (matchLiteral (String.substring 0 (n - 2) rest) true false))
      else inl "error parsing regexp: not in the table"
  | _ => inl ("error parsing regexp: missing closing ): `" +:+ expr +:+ "`")
  end.

Definition reached : gmap ssa.Function bool :=
  list_to_map [(f_init, false); (f_main, false); (f_used, false)].

(** The program that loads the packages [loaded]; [app] imports [dep/x],
    which [packages.Visit] therefore meets first. *)
Definition program (loaded : list packages.Package) : Env := {|
  os_Getwd := ("/w", None);
  filepath_Rel := Rel;
  packages_Load := λ _, inr loaded;
  packages_PrintErrors := λ _, 0%Z;
  packages_Visit := λ initial, pkg_x :: initial;
  regexp_Compile := Compile;
  ssautil_MainPackages := λ _, [ssa_app];
  rta_Analyze := λ _, reached;
  Fset_Position := Position
|}.

Definition initial : list packages.Package := [pkg_app app_decls; pkg_util].
Definition env : Env := program initial.

(** The compiled filter ["^app"]. *)
Definition under_app : option regexp.Regexp :=
  Some (regexp.mkRegexp (matchLiteral "app" false false)).

(** The same program with the test variant of [app] loaded too, and with
    a method named [init] added to [/w/main.go]. *)
Definition tested_initial : list packages.Package :=
  [pkg_app app_decls; pkg_app_test; pkg_util].
Definition tested : Env := program tested_initial.
Definition with_init_initial : list packages.Package :=
  [pkg_app (app_decls ++ [packages.FuncDecl f_tinit]); pkg_util].
Definition with_init : Env := program with_init_initial.

(** The same program in a process whose [os.Getwd] failed. *)
Definition lost : Env := {|
  os_Getwd := ("", Some "getwd: no such file or directory");
  filepath_Rel := Rel;
  packages_Load := packages_Load env;
  packages_PrintErrors := packages_PrintErrors env;
  packages_Visit := packages_Visit env;
  regexp_Compile := Compile;
  ssautil_MainPackages := ssautil_MainPackages env;
  rta_Analyze := rta_Analyze env;
  Fset_Position := Position
|}.

(** The same program with an oracle that lists nothing. *)
Definition unreached : Env := {|
  os_Getwd := os_Getwd env;
  filepath_Rel := Rel;
  packages_Load := packages_Load env;
  packages_PrintErrors := packages_PrintErrors env;
  packages_Visit := packages_Visit env;
  regexp_Compile := Compile;
  ssautil_MainPackages := ssautil_MainPackages env;
  rta_Analyze := λ _, ∅;
  Fset_Position := Position
|}.

(** The same packages without a main package among them. *)
Definition library : Env := {|
  os_Getwd := os_Getwd env;
  filepath_Rel := Rel;
  packages_Load := packages_Load env;
  packages_PrintErrors := packages_PrintErrors env;
  packages_Visit := packages_Visit env;
  regexp_Compile := Compile;
  ssautil_MainPackages := λ _, [];
  rta_Analyze := rta_Analyze env;
  Fset_Position := Position
|}.

(** Two ways the runtime may order a [range]. *)
Definition forwards : MapOrder :=
  mkMapOrder (λ _ l, l) (λ _ l, reflexivity l).
Definition backwards : MapOrder :=
  mkMapOrder (λ _ l, reverse l) (λ _ l, reverse_Permutation l).

End Example.

(** ** A pass of the linter over the package [app] of the example program *)

Module Lint.

(** The file set of the pass: [/w/main.go] based at 1000 and
    [/w/zz_generated.go] at 2000, ten positions to a line. *)
Definition Position (p : token.Pos) : token.Position :=
  if bool_decide (1000 < p < 2000)%Z
  then token.mkPosition Example.main_go (p - 1000) ((p - 1000) / 10) ((p - 1000) mod 10 + 1)
  else if bool_decide (2000 < p < 3000)%Z
  then token.mkPosition Example.gen_go (p - 2000) ((p - 2000) / 10) ((p - 2000) mod 10 + 1)
  else token.mkPosition "" 0 0 0.

(** [/w/main.go]: an import, then [main] on line 3, [used] on line 7 and
    [helper] on line 11, each with its name and its body as children. *)
Definition main_file : ast.Node :=
  ast.mkNode ast.FileNode 1010%Z
    [ ast.mkNode ast.OtherNode 1020%Z [];
      ast.mkNode ast.FuncDeclNode 1030%Z
        [ast.mkNode ast.OtherNode 1035%Z []; ast.mkNode ast.OtherNode 1042%Z []];
      ast.mkNode ast.FuncDeclNode 1070%Z
        [ast.mkNode ast.OtherNode 1075%Z []; ast.mkNode ast.OtherNode 1082%Z []];
      ast.mkNode ast.FuncDeclNode 1110%Z
        [ast.mkNode ast.OtherNode 1115%Z []; ast.mkNode ast.OtherNode 1124%Z []] ].

(** [/w/zz_generated.go]: [genHelper] on line 9. *)
Definition gen_file : ast.Node :=
  ast.mkNode ast.FileNode 2010%Z
    [ ast.mkNode ast.FuncDeclNode 2090%Z [ast.mkNode ast.OtherNode 2095%Z []] ].

Definition pass : analysis.Pass := analysis.mkPass [main_file; gen_file] Position.

(** Settings arrive decoded or not at all. *)
Definition DecodeSettings (settings : option Deadcode.Settings)
  : error + Deadcode.Settings :=
  match settings with
  | Some s => inr s
  | None => inl "json: cannot unmarshal settings"
  end.

(** A receiver type: the alias [A = *B] where [B = T]. *)
Definition aliased_pointer : types.Typ :=
  types.Alias (types.Pointer (types.Alias (types.Named "T"))).

End Lint.


(** * Properties *)

(** Settles a decidable fact about concrete data by evaluation. *)
Ltac evaluate := apply (bool_decide_unpack _); vm_compute; exact I.

(** ** Maps to [bool] and their keys *)

Section maps.
Context `{Countable K}.

Lemma index_insert (m : gmap K bool) (k j : K) :
  index (<[k := true]> m) j = true ↔ k = j ∨ index m j = true.
Proof.
  unfold index. destruct (decide (k = j)) as [->|Hne].
  - rewrite lookup_insert_eq. simpl. split; [by left|done].
  - rewrite lookup_insert_ne by done. split; [by right|by intros [?|?]].
Qed.

Lemma index_empty (j : K) : index (∅ : gmap K bool) j = false.
Proof. unfold index. by rewrite lookup_empty. Qed.

Lemma elem_of_keys {V} (m : gmap K V) (k : K) : k ∈ keys m ↔ is_Some (m !! k).
Proof.
  unfold keys. rewrite list_elem_of_fmap. split.
  - intros [[k' v] [Heq Hin]]. simpl in Heq. subst k'.
    apply elem_of_map_to_list in Hin. by exists v.
  - intros [v Hv]. exists (k, v). split; [done|]. by apply elem_of_map_to_list.
Qed.

Lemma NoDup_keys {V} (m : gmap K V) : NoDup (keys m).
Proof. apply NoDup_fst_map_to_list. Qed.

Lemma keys_empty {V} : keys (∅ : gmap K V) = [].
Proof. unfold keys. by rewrite map_to_list_empty. Qed.

End maps.

Lemma elem_of_range (rt : MapOrder) {A} (l : list A) (x : A) :
  x ∈ range rt l ↔ x ∈ l.
Proof. by rewrite (range_perm rt A l). Qed.

Lemma NoDup_range (rt : MapOrder) {A} (l : list A) : NoDup (range rt l) ↔ NoDup l.
Proof. by rewrite (range_perm rt A l). Qed.

(** ** The functions [group] keeps *)

Section firsts.
Variable env : Env.

Lemma firsts_elem seen l g :
  g ∈ firsts env seen l → g ∈ l ∧ index seen (posn env g) = false.
Proof.
  revert seen. induction l as [|fn l IH]; intros seen; simpl.
  - by intros ?%elem_of_nil.
  - destruct (index seen (posn env fn)) eqn:Hfn.
    + intros [? ?]%IH. split; [by right|done].
    + intros [->|Hin]%elem_of_cons; [split; [by left|done]|].
      apply IH in Hin as [Hin Hg]. split; [by right|].
      destruct (index seen (posn env g)) eqn:Hs; [|done].
      assert (index (<[posn env fn := true]> seen) (posn env g) = true) as Hc
        by (apply index_insert; by right).
      congruence.
Qed.

Lemma firsts_fresh seen l g :
  g ∈ firsts env (<[posn env g := true]> seen) l → False.
Proof.
  intros [_ Hg]%firsts_elem.
  assert (index (<[posn env g := true]> seen) (posn env g) = true) as Hc
    by (apply index_insert; by left).
  congruence.
Qed.

Lemma firsts_posn_seen seen l g p :
  g ∈ firsts env seen l → index seen p = true → posn env g ≠ p.
Proof. intros [_ Hg]%firsts_elem Hp <-. congruence. Qed.

(** No two kept functions share a position. *)
Lemma firsts_NoDup seen l : NoDup (posn env <$> firsts env seen l).
Proof.
  revert seen. induction l as [|fn l IH]; intros seen; simpl.
  - constructor.
  - destruct (index seen (posn env fn)) eqn:Hfn; [apply IH|].
    rewrite fmap_cons. constructor; [|apply IH].
    intros (g & Heq & Hin)%list_elem_of_fmap.
    eapply firsts_posn_seen; [exact Hin| |symmetry; exact Heq].
    apply index_insert. by left.
Qed.


(** Only what [seen] answers matters. *)
Lemma firsts_ext seen1 seen2 l :
  (∀ p, index seen1 p = index seen2 p) →
  firsts env seen1 l = firsts env seen2 l.
Proof.
  revert seen1 seen2. induction l as [|fn l IH]; intros seen1 seen2 Hext; simpl.
  - done.
  - rewrite Hext. destruct (index seen2 (posn env fn)); [by apply IH|].
    f_equal. apply IH. intros p.
    destruct (index (<[posn env fn:=true]> seen1) p) eqn:H1,
             (index (<[posn env fn:=true]> seen2) p) eqn:H2; try done.
    + apply index_insert in H1 as [<-|H1].
      * assert (index (<[posn env fn:=true]> seen2) (posn env fn) = true)
          by (apply index_insert; by left). congruence.
      * rewrite Hext in H1.
        assert (index (<[posn env fn:=true]> seen2) p = true)
          by (apply index_insert; by right). congruence.
    + apply index_insert in H2 as [<-|H2].
      * assert (index (<[posn env fn:=true]> seen1) (posn env fn) = true)
          by (apply index_insert; by left). congruence.
      * rewrite <- Hext in H2.
        assert (index (<[posn env fn:=true]> seen1) p = true)
          by (apply index_insert; by right). congruence.
Qed.

(** With nothing seen and no position declared twice, all are kept. *)
Lemma firsts_all l :
  NoDup (posn env <$> l) → firsts env ∅ l = l.
Proof.
  assert (∀ seen, NoDup (posn env <$> l) →
            (∀ fn, fn ∈ l → index seen (posn env fn) = false) →
            firsts env seen l = l) as Hgen.
  { induction l as [|fn l IH]; intros seen Hnd Hseen; simpl; [done|].
    rewrite Hseen by (by left). f_equal.
    rewrite fmap_cons in Hnd. apply NoDup_cons in Hnd as [Hfn Hnd].
    apply IH; [done|]. intros g Hg.
    destruct (index (<[posn env fn:=true]> seen) (posn env g)) eqn:Hs; [|done].
    apply index_insert in Hs as [Heq|Hs].
    - exfalso. apply Hfn. rewrite Heq. by apply list_elem_of_fmap_2.
    - rewrite Hseen in Hs by (by right). done. }
  intros Hnd. apply Hgen; [done|]. intros fn _. apply index_empty.
Qed.

End firsts.

(** ** The grouping loop *)

Section group.
Variable env : Env.

Lemma keys_group_insert (B : gmap string (gmap ssa.Function bool))
    (fn fn' : ssa.Function) (pkg pkg' : string) :
  fn' ∈ keys (default ∅ (<[pkg := <[fn := true]> (default ∅ (B !! pkg))]> B !! pkg'))
  ↔ fn' ∈ keys (default ∅ (B !! pkg')) ∨ (fn' = fn ∧ pkg' = pkg).
Proof.
  rewrite !elem_of_keys. destruct (decide (pkg = pkg')) as [<-|Hne].
  - rewrite lookup_insert_eq. simpl. destruct (decide (fn = fn')) as [<-|Hfn].
    + rewrite lookup_insert_eq. split; [intros _; by right|by eexists].
    + rewrite lookup_insert_ne by done. split; [by left|].
      intros [?|[? ?]]; [done|congruence].
  - rewrite lookup_insert_ne by done. split; [by left|].
    intros [?|[? ?]]; [done|congruence].
Qed.

Lemma keys_group_dom (B : gmap string (gmap ssa.Function bool))
    (m : gmap ssa.Function bool) (pkg pkg' : string) :
  pkg' ∈ keys (<[pkg := m]> B) ↔ pkg' ∈ keys B ∨ pkg' = pkg.
Proof.
  rewrite !elem_of_keys. destruct (decide (pkg = pkg')) as [<-|Hne].
  - rewrite lookup_insert_eq. split; [by right|by eexists].
  - rewrite lookup_insert_ne by done. split; [by left|].
    intros [?|?]; [done|congruence].
Qed.

(** One turn of the loop puts the position of its function in the set,
    whether or not a second function shares it. *)
Lemma group_guard st F : index (group env st F).1 (posn env F) = true.
Proof.
  destruct st as [R B]. simpl.
  destruct (index R (posn env F)) eqn:HF; simpl; [done|].
  apply index_insert. by left.
Qed.

(** A second function at the same position leaves both maps as they are. *)
Lemma group_suppressed st F G :
  posn env F = posn env G → group env (group env st F) G = group env st F.
Proof.
  intros Heq. pose proof (group_guard st F) as HF. rewrite Heq in HF.
  destruct (group env st F) as [R B]. simpl in *. by rewrite HF.
Qed.

(** What the loop over [sourceFuncs] leaves in its two maps. *)
Lemma foldl_group l R B :
  (∀ pkg fn,
      fn ∈ keys (default ∅ ((foldl (group env) (R, B) l).2 !! pkg))
      ↔ fn ∈ keys (default ∅ (B !! pkg))
        ∨ (fn ∈ firsts env R l ∧ ssa.PkgPath fn = pkg))
  ∧ (∀ pkg,
      pkg ∈ keys (foldl (group env) (R, B) l).2
      ↔ pkg ∈ keys B ∨ ∃ fn, fn ∈ firsts env R l ∧ ssa.PkgPath fn = pkg)
  ∧ (∀ p,
      index (foldl (group env) (R, B) l).1 p = true
      ↔ index R p = true ∨ ∃ fn, fn ∈ l ∧ posn env fn = p).
Proof.
  revert R B. induction l as [|fn l IH]; intros R B.
  - simpl. split_and!.
    + intros pkg fn. split; [by left|]. by intros [?|[?%elem_of_nil _]].
    + intros pkg. split; [by left|]. by intros [?|(? & ?%elem_of_nil & _)].
    + intros p. split; [by left|]. by intros [?|(? & ?%elem_of_nil & _)].
  - simpl. destruct (index R (posn env fn)) eqn:Hfn; simpl.
    + destruct (IH R B) as (IH1 & IH2 & IH3). split_and!; [done|done|].
      intros p. rewrite IH3. split.
      * intros [?|(g & Hg & Hp)]; [by left|]. right. exists g. split; [by right|done].
      * intros [?|(g & [->|Hg]%elem_of_cons & Hp)]; [by left| |].
        -- left. by rewrite <- Hp.
        -- right. by exists g.
    + destruct (IH (<[posn env fn := true]> R)
                   (<[ssa.PkgPath fn :=
                        <[fn := true]> (default ∅ (B !! ssa.PkgPath fn))]> B))
        as (IH1 & IH2 & IH3).
      split_and!.
      * intros pkg g. rewrite IH1, keys_group_insert, elem_of_cons.
        split.
        -- intros [ [ ? | [-> ->] ] | [? ?] ]; [by left| |]; right; split; auto.
        -- intros [ ? | [ [->|?] <- ] ]; [by left; left| |by right].
           left. by right.
      * intros pkg. rewrite IH2, keys_group_dom. split.
        -- intros [[?| ->]|(g & Hg & Hp)]; [by left| |].
           ++ right. exists fn. split; [by left|done].
           ++ right. exists g. split; [by right|done].
        -- intros [?|(g & [->|Hg]%elem_of_cons & Hp)]; [by left; left| |].
           ++ left. by right.
           ++ right. by exists g.
      * intros p. rewrite IH3, index_insert. split.
        -- intros [[<-|?]|(g & Hg & Hp)]; [|by left|].
           ++ right. exists fn. split; [by left|done].
           ++ right. exists g. split; [by right|done].
        -- intros [?|(g & [->|Hg]%elem_of_cons & Hp)]; [by left; right| |].
           ++ left. by left.
           ++ right. by exists g.
Qed.

Lemma byPkgPath_keys rt initial pkg fn :
  fn ∈ keys (default ∅ (byPkgPath env rt initial !! pkg))
  ↔ fn ∈ firsts env (reachablePosn env rt initial) (sourceFuncs env initial)
    ∧ ssa.PkgPath fn = pkg.
Proof.
  unfold byPkgPath, groupAll.
  destruct (foldl_group (sourceFuncs env initial)
              (reachablePosn env rt initial) ∅) as (H1 & _ & _).
  rewrite H1, lookup_empty. simpl. rewrite keys_empty. split.
  - by intros [?%elem_of_nil|?].
  - by right.
Qed.

Lemma byPkgPath_dom rt initial pkg :
  pkg ∈ keys (byPkgPath env rt initial)
  ↔ ∃ fn, fn ∈ firsts env (reachablePosn env rt initial) (sourceFuncs env initial)
          ∧ ssa.PkgPath fn = pkg.
Proof.
  unfold byPkgPath, groupAll.
  destruct (foldl_group (sourceFuncs env initial)
              (reachablePosn env rt initial) ∅) as (_ & H2 & _).
  rewrite H2, keys_empty. split.
  - by intros [?%elem_of_nil|?].
  - by right.
Qed.

(** The guard: after the loop every declared position is in the set. *)
Lemma guard_inserted rt initial F :
  F ∈ sourceFuncs env initial →
  index (groupAll env (reachablePosn env rt initial) (sourceFuncs env initial)).1
        (posn env F) = true.
Proof.
  intros HF. unfold groupAll.
  destruct (foldl_group (sourceFuncs env initial)
              (reachablePosn env rt initial) ∅) as (_ & _ & H3).
  apply H3. right. by exists F.
Qed.

End group.

(** ** The set of reachable positions *)

Section reachable.
Variable env : Env.

Lemma foldl_markReachable l R p :
  index (foldl (markReachable env) R l) p = true
  ↔ index R p = true ∨ ∃ fn, fn ∈ l ∧ listed fn = true ∧ posn env fn = p.
Proof.
  revert R. induction l as [|fn l IH]; intros R; simpl.
  - split; [by left|]. by intros [?|(? & ?%elem_of_nil & _)].
  - rewrite IH. unfold markReachable. fold (listed fn).
    destruct (listed fn) eqn:Hfn.
    + rewrite index_insert. split.
      * intros [[<-|?]|(g & Hg & Hl & Hp)]; [|by left|].
        -- right. exists fn. split; [by left|done].
        -- right. exists g. split; [by right|done].
      * intros [?|(g & [->|Hg]%elem_of_cons & Hl & Hp)]; [by left; right| |].
        -- left. by left.
        -- right. by exists g.
    + split.
      * intros [?|(g & Hg & Hl & Hp)]; [by left|].
        right. exists g. split; [by right|done].
      * intros [?|(g & [->|Hg]%elem_of_cons & Hl & Hp)]; [by left|congruence|].
        right. by exists g.
Qed.

(** A position is in the set exactly when the oracle lists a function at
    it that has a valid position or is named "init". *)
Lemma reachablePosn_index rt initial p :
  index (reachablePosn env rt initial) p = true
  ↔ ∃ fn, is_Some (res env initial !! fn) ∧ listed fn = true ∧ posn env fn = p.
Proof.
  unfold reachablePosn, reachable. rewrite foldl_markReachable, index_empty.
  split.
  - intros [?|(fn & Hfn & ?)]; [done|]. exists fn. split; [|done].
    apply elem_of_range in Hfn. by apply elem_of_keys.
  - intros (fn & Hfn & ?). right. exists fn. split; [|done].
    apply elem_of_range. by apply elem_of_keys.
Qed.

(** The order of the range over [res.Reachable] does not matter. *)
Lemma reachablePosn_order rt1 rt2 initial p :
  index (reachablePosn env rt1 initial) p = index (reachablePosn env rt2 initial) p.
Proof.
  destruct (index (reachablePosn env rt1 initial) p) eqn:H1,
           (index (reachablePosn env rt2 initial) p) eqn:H2; try done.
  - apply reachablePosn_index in H1. apply (reachablePosn_index rt2) in H1.
    congruence.
  - apply reachablePosn_index in H2. apply (reachablePosn_index rt1) in H2.
    congruence.
Qed.

Lemma firsts_order rt1 rt2 initial l :
  firsts env (reachablePosn env rt1 initial) l
  = firsts env (reachablePosn env rt2 initial) l.
Proof. apply firsts_ext. intros p. apply reachablePosn_order. Qed.

Lemma reachablePosn_empty rt initial p :
  res env initial = ∅ → index (reachablePosn env rt initial) p = false.
Proof.
  intros Hres. destruct (index (reachablePosn env rt initial) p) eqn:Hp; [|done].
  apply reachablePosn_index in Hp as (fn & [b Hfn] & _).
  rewrite Hres, lookup_empty in Hfn. done.
Qed.

End reachable.

(** ** The report loops *)

Section survivors.
Variable env : Env.
Variable rt : MapOrder.
Variable skipped : string → bool.
Variable generated : gmap string bool.
Variable byPkgPath : gmap string (gmap ssa.Function bool).

Lemma elem_of_survivors order fn :
  fn ∈ survivors env rt skipped generated byPkgPath order
  ↔ ∃ pkg, pkg ∈ order ∧ skipped pkg = false
           ∧ fn ∈ keys (default ∅ (byPkgPath !! pkg))
           ∧ index generated (token.Filename (posn env fn)) = false.
Proof.
  unfold survivors. rewrite list_elem_of_bind. split.
  - intros (pkg & [Hgen Hin]%list_elem_of_filter & [Hsk Hpkg]%list_elem_of_filter).
    apply elem_of_range in Hin. by exists pkg.
  - intros (pkg & Hpkg & Hsk & Hin & Hgen). exists pkg.
    rewrite !list_elem_of_filter. split_and!; try done.
    by apply elem_of_range.
Qed.

Lemma NoDup_survivors order :
  sorted_out byPkgPath → NoDup order →
  NoDup (survivors env rt skipped generated byPkgPath order).
Proof.
  intros Hout Hnd. unfold survivors. apply NoDup_bind.
  - intros p1 p2 fn _ _ [_ H1]%list_elem_of_filter [_ H2]%list_elem_of_filter.
    apply elem_of_range, Hout in H1.
    apply elem_of_range, Hout in H2. congruence.
  - intros p _. apply NoDup_filter, NoDup_range, NoDup_keys.
  - by apply NoDup_filter.
Qed.

Lemma survivors_pkgpath order fn :
  sorted_out byPkgPath →
  fn ∈ survivors env rt skipped generated byPkgPath order →
  ssa.PkgPath fn ∈ order.
Proof.
  intros Hout (pkg & Hpkg & _ & Hin & _)%elem_of_survivors.
  by rewrite (Hout _ _ Hin).
Qed.

End survivors.

Section reported.
Variable env : Env.
Variable rt : MapOrder.

Lemma byPkgPath_sorted_out initial : sorted_out (byPkgPath env rt initial).
Proof. intros pkg fn Hfn. by apply byPkgPath_keys in Hfn as [_ ?]. Qed.

(** Whatever order covers the keys of [byPkgPath], the functions that
    survive are the kept ones of a package that is not skipped and of a
    file that is not generated. *)
Lemma elem_of_survivors_run skipped initial order fn :
  (∀ pkg, pkg ∈ keys (byPkgPath env rt initial) → pkg ∈ order) →
  fn ∈ survivors env rt skipped (generated env initial)
         (byPkgPath env rt initial) order
  ↔ fn ∈ firsts env (reachablePosn env rt initial) (sourceFuncs env initial)
    ∧ skipped (ssa.PkgPath fn) = false
    ∧ index (generated env initial) (token.Filename (posn env fn)) = false.
Proof.
  intros Hcover. rewrite elem_of_survivors. split.
  - intros (pkg & Hpkg & Hsk & Hin & Hgen).
    apply byPkgPath_keys in Hin as [Hin <-]. done.
  - intros (Hin & Hsk & Hgen). exists (ssa.PkgPath fn). split_and!; try done.
    + apply Hcover, byPkgPath_dom. by exists fn.
    + by apply byPkgPath_keys.
Qed.

Lemma deadcode_foldl_appendIssue gen acc l :
  foldl (Deadcode.appendIssue env gen) acc l
  = acc ++ (Deadcode.issueOf env <$>
              filter (λ fn, index gen (token.Filename (posn env fn)) = false) l).
Proof.
  revert acc. induction l as [|fn l IH]; intros acc; simpl.
  - by rewrite app_nil_r.
  - rewrite IH, filter_cons. unfold Deadcode.appendIssue.
    destruct (index gen (token.Filename (posn env fn))) eqn:Hgen.
    + by rewrite decide_False by done.
    + rewrite decide_True by done. by rewrite fmap_cons, <- app_assoc.
Qed.

Lemma deadcode_foldl_reportPackage filter gen B acc order :
  foldl (Deadcode.reportPackage env rt filter gen B) acc order
  = acc ++ (Deadcode.issueOf env <$>
              survivors env rt (Deadcode.skipped filter) gen B order).
Proof.
  revert acc. induction order as [|pkg order IH]; intros acc; simpl.
  - by rewrite app_nil_r.
  - rewrite IH. unfold survivors. rewrite filter_cons.
    unfold Deadcode.reportPackage.
    destruct (Deadcode.skipped filter pkg) eqn:Hsk.
    + by rewrite decide_False by done.
    + rewrite decide_True by done.
      by rewrite bind_cons, fmap_app, deadcode_foldl_appendIssue, app_assoc.
Qed.

Lemma deadcode_buildIssues filter initial :
  Deadcode.buildIssues env rt filter (generated env initial)
    (byPkgPath env rt initial)
  = Deadcode.issueOf env <$> Deadcode.reportedFuncs env rt filter initial.
Proof. unfold Deadcode.buildIssues. by rewrite deadcode_foldl_reportPackage. Qed.

(** A run that gets past the checks returns the issues of the reported
    functions and no error. *)
Lemma deadcode_run_passes settings initial filter :
  Deadcode.passes env settings initial filter →
  Deadcode.runAnalysis env rt settings
  = (Deadcode.issueOf env <$> Deadcode.reportedFuncs env rt filter initial, None).
Proof.
  intros (Hload & Hne & Herr & Hfilter & Hmain). unfold Deadcode.runAnalysis.
  rewrite Hload, Hfilter.
  rewrite bool_decide_eq_false_2 by (by destruct initial).
  rewrite bool_decide_eq_false_2 by lia.
  rewrite bool_decide_eq_false_2 by (by destruct (mains env initial)).
  by rewrite deadcode_buildIssues.
Qed.

Lemma deadcode_reported_elem filter initial fn :
  fn ∈ Deadcode.reportedFuncs env rt filter initial
  ↔ fn ∈ firsts env (reachablePosn env rt initial) (sourceFuncs env initial)
    ∧ Deadcode.skipped filter (ssa.PkgPath fn) = false
    ∧ index (generated env initial) (token.Filename (posn env fn)) = false.
Proof.
  apply elem_of_survivors_run. intros pkg Hpkg. by apply elem_of_range.
Qed.

(** No two of the kept functions share a position. *)
Lemma firsts_posn_inj seen l f g :
  f ∈ firsts env seen l → g ∈ firsts env seen l →
  posn env f = posn env g → f = g.
Proof.
  intros Hf Hg Heq. pose proof (firsts_NoDup env seen l) as Hnd.
  apply list_elem_of_lookup in Hf as [i Hi], Hg as [j Hj].
  assert (i = j) as ->; [|congruence].
  eapply NoDup_lookup; [exact Hnd| |].
  - by rewrite list_lookup_fmap, Hi.
  - by rewrite list_lookup_fmap, Hj, Heq.
Qed.

Lemma NoDup_posn_survivors skipped initial order :
  NoDup order →
  NoDup (posn env <$> survivors env rt skipped (generated env initial)
                        (byPkgPath env rt initial) order).
Proof.
  intros Hnd. apply NoDup_fmap_2_strong.
  - intros f g (p & _ & _ & Hf & _)%elem_of_survivors
             (q & _ & _ & Hg & _)%elem_of_survivors.
    apply byPkgPath_keys in Hf as [Hf _], Hg as [Hg _].
    by apply (firsts_posn_inj _ _ f g Hf Hg).
  - by apply NoDup_survivors; [apply byPkgPath_sorted_out|].
Qed.

Lemma deadcode_reported_NoDup filter initial :
  NoDup (posn env <$> Deadcode.reportedFuncs env rt filter initial).
Proof. apply NoDup_posn_survivors, NoDup_range, NoDup_keys. Qed.

Lemma deadfunc_reported_posn_NoDup filter initial :
  NoDup (posn env <$> Deadfunc.reportedFuncs env rt filter initial).
Proof.
  apply NoDup_posn_survivors. rewrite merge_sort_Permutation.
  apply NoDup_range, NoDup_keys.
Qed.

Lemma deadfunc_foldl_appendIssue gen acc l :
  foldl (Deadfunc.appendIssue env gen) acc l
  = acc ++ (Deadfunc.issueOf env <$>
              filter (λ fn, index gen (token.Filename (posn env fn)) = false) l).
Proof.
  revert acc. induction l as [|fn l IH]; intros acc; simpl.
  - by rewrite app_nil_r.
  - rewrite IH, filter_cons. unfold Deadfunc.appendIssue.
    destruct (index gen (token.Filename (posn env fn))) eqn:Hgen.
    + by rewrite decide_False by done.
    + rewrite decide_True by done. by rewrite fmap_cons, <- app_assoc.
Qed.

Lemma deadfunc_foldl_reportPackage filter gen B acc order :
  foldl (Deadfunc.reportPackage env rt filter gen B) acc order
  = acc ++ (Deadfunc.issueOf env <$>
              survivors env rt (λ p, negb (regexp.MatchString filter p))
                gen B order).
Proof.
  revert acc. induction order as [|pkg order IH]; intros acc; simpl.
  - by rewrite app_nil_r.
  - rewrite IH. unfold survivors. rewrite filter_cons.
    unfold Deadfunc.reportPackage.
    destruct (negb (regexp.MatchString filter pkg)) eqn:Hsk.
    + by rewrite decide_False by done.
    + rewrite decide_True by done.
      by rewrite bind_cons, fmap_app, deadfunc_foldl_appendIssue, app_assoc.
Qed.

Lemma deadfunc_run_passes initial filter :
  Deadfunc.passes env initial filter →
  Deadfunc.runAnalysis env rt
  = Deadfunc.Return
      (Deadfunc.issueOf env <$> Deadfunc.reportedFuncs env rt filter initial,
       None).
Proof.
  intros (Hload & Herr & (first & Hfirst & Hfilter) & Hmain).
  unfold Deadfunc.runAnalysis. rewrite Hload.
  destruct initial as [|p initial]; [done|]. simpl in Hfirst.
  injection Hfirst as ->.
  rewrite bool_decide_eq_false_2 by lia.
  rewrite bool_decide_eq_true_2 by done. rewrite Hfilter.
  rewrite bool_decide_eq_false_2 by (by destruct (mains env (first :: initial))).
  unfold Deadfunc.buildIssues. by rewrite deadfunc_foldl_reportPackage.
Qed.

Lemma deadfunc_reported_elem filter initial fn :
  fn ∈ Deadfunc.reportedFuncs env rt filter initial
  ↔ fn ∈ firsts env (reachablePosn env rt initial) (sourceFuncs env initial)
    ∧ regexp.MatchString filter (ssa.PkgPath fn) = true
    ∧ index (generated env initial) (token.Filename (posn env fn)) = false.
Proof.
  unfold Deadfunc.reportedFuncs. rewrite elem_of_survivors_run.
  - by rewrite negb_false_iff.
  - intros pkg Hpkg. rewrite merge_sort_Permutation. by apply elem_of_range.
Qed.

End reported.

(** ** The walk over the syntax trees *)

Section gather.
Variable env : Env.

Lemma foldl_visitDecl acc decls fn :
  fn ∈ foldl visitDecl acc decls
  ↔ fn ∈ acc ∨ packages.FuncDecl fn ∈ decls.
Proof.
  revert acc. induction decls as [|d decls IH]; intros acc; simpl.
  - split; [by left|]. by intros [?|?%elem_of_nil].
  - rewrite IH, elem_of_cons. destruct d as [g|]; simpl.
    + rewrite elem_of_app, list_elem_of_singleton. split.
      * intros [[?| ->]|?]; [by left|by right; left|by right; right].
      * intros [?|[[= ->]|?]]; [by left; left|by left; right|by right].
    + split; [intros [?|?]; [by left|by right; right]|].
      intros [?|[?|?]]; [by left|done|by right].
Qed.

Lemma foldl_visitFile st files :
  (∀ fn, fn ∈ (foldl visitFile st files).1
         ↔ fn ∈ st.1 ∨ ∃ file, file ∈ files
                               ∧ packages.FuncDecl fn ∈ packages.Decls file)
  ∧ (∀ name, index (foldl visitFile st files).2 name = true
             ↔ index st.2 name = true
               ∨ ∃ file, file ∈ files ∧ packages.IsGenerated file = true
                         ∧ packages.FileName file = name).
Proof.
  revert st. induction files as [|f files IH]; intros st; simpl.
  - split; intros x; (split; [by left|]).
    + by intros [?|(? & ?%elem_of_nil & _)].
    + by intros [?|(? & ?%elem_of_nil & _)].
  - destruct (IH (visitFile st f)) as [IH1 IH2]. split.
    + intros fn. rewrite IH1. unfold visitFile at 1. simpl.
      rewrite foldl_visitDecl. split.
      * intros [[?|?]|(file & ? & ?)]; [by left| |].
        -- right. exists f. split; [by left|done].
        -- right. exists file. split; [by right|done].
      * intros [?|(file & [->|?]%elem_of_cons & ?)];
          [by left; left|by left; right|].
        right. by exists file.
    + intros name. rewrite IH2. unfold visitFile at 1. simpl.
      destruct (packages.IsGenerated f) eqn:Hgen.
      * rewrite index_insert. split.
        -- intros [[<-|?]|(file & ? & ? & ?)]; [|by left|].
           ++ right. exists f. split; [by left|done].
           ++ right. exists file. split; [by right|done].
        -- intros [?|(file & [->|?]%elem_of_cons & ? & ?)];
             [by left; right|by left; left|].
           right. by exists file.
      * split.
        -- intros [?|(file & ? & ? & ?)]; [by left|].
           right. exists file. split; [by right|done].
        -- intros [?|(file & [->|?]%elem_of_cons & ? & ?)];
             [by left|congruence|].
           right. by exists file.
Qed.

Lemma foldl_visitPackage st pkgs :
  (∀ fn, fn ∈ (foldl visitPackage st pkgs).1
         ↔ fn ∈ st.1 ∨ ∃ p file, p ∈ pkgs ∧ file ∈ packages.Syntax p
                                 ∧ packages.FuncDecl fn ∈ packages.Decls file)
  ∧ (∀ name, index (foldl visitPackage st pkgs).2 name = true
             ↔ index st.2 name = true
               ∨ ∃ p file, p ∈ pkgs ∧ file ∈ packages.Syntax p
                           ∧ packages.IsGenerated file = true
                           ∧ packages.FileName file = name).
Proof.
  revert st. induction pkgs as [|q pkgs IH]; intros st; simpl.
  - split; intros x; (split; [by left|]).
    + by intros [?|(? & ? & ?%elem_of_nil & _)].
    + by intros [?|(? & ? & ?%elem_of_nil & _)].
  - destruct (IH (visitPackage st q)) as [IH1 IH2].
    destruct (foldl_visitFile st (packages.Syntax q)) as [V1 V2].
    unfold visitPackage at 1 3. split.
    + intros fn. rewrite IH1. fold (visitPackage st q).
      unfold visitPackage at 1. rewrite V1. split.
      * intros [[?|(file & ? & ?)]|(p & file & ? & ? & ?)]; [by left| |].
        -- right. exists q, file. split; [by left|done].
        -- right. exists p, file. split; [by right|done].
      * intros [?|(p & file & [->|?]%elem_of_cons & ? & ?)]; [by left; left| |].
        -- left. right. by exists file.
        -- right. by exists p, file.
    + intros name. rewrite IH2. fold (visitPackage st q).
      unfold visitPackage at 1. rewrite V2. split.
      * intros [[?|(file & ? & ? & ?)]|(p & file & ? & ? & ? & ?)]; [by left| |].
        -- right. exists q, file. split; [by left|done].
        -- right. exists p, file. split; [by right|done].
      * intros [?|(p & file & [->|?]%elem_of_cons & ? & ? & ?)];
          [by left; left| |].
        -- left. right. by exists file.
        -- right. by exists p, file.
Qed.

(** [sourceFuncs] holds the functions of the declarations [Visit] meets. *)
Lemma elem_of_sourceFuncs initial fn :
  fn ∈ sourceFuncs env initial
  ↔ ∃ p file, p ∈ packages_Visit env initial ∧ file ∈ packages.Syntax p
              ∧ packages.FuncDecl fn ∈ packages.Decls file.
Proof.
  unfold sourceFuncs, gather.
  destruct (foldl_visitPackage ([], ∅) (packages_Visit env initial)) as [H1 _].
  rewrite H1. simpl. split; [|by right]. by intros [?%elem_of_nil|?].
Qed.

(** [generated] holds the names of the files flagged as generated. *)
Lemma generated_index initial name :
  index (generated env initial) name = true
  ↔ ∃ p file, p ∈ packages_Visit env initial ∧ file ∈ packages.Syntax p
              ∧ packages.IsGenerated file = true
              ∧ packages.FileName file = name.
Proof.
  unfold generated, gather.
  destruct (foldl_visitPackage ([], ∅) (packages_Visit env initial)) as [_ H2].
  rewrite H2. simpl. rewrite index_empty. split; [|by right]. by intros [?|?].
Qed.

End gather.

(** ** Counting the functions at one position *)

Section counting.
Context {A B : Type} `{EqDecision B} (f : A → B).

Lemma filter_none (l : list A) (y : B) :
  y ∉ f <$> l → filter (λ x, f x = y) l = [].
Proof.
  induction l as [|x l IH]; [done|]. rewrite fmap_cons, not_elem_of_cons.
  intros [Hne Hl]. rewrite filter_cons, decide_False by done. by apply IH.
Qed.

Lemma at_most_one (l : list A) (y : B) :
  NoDup (f <$> l) → length (filter (λ x, f x = y) l) ≤ 1.
Proof.
  induction l as [|x l IH]; [simpl; lia|].
  rewrite fmap_cons, NoDup_cons. intros [Hx Hnd]. rewrite filter_cons.
  destruct (decide (f x = y)) as [<-|Hne]; [|by apply IH].
  rewrite filter_none by done. simpl. lia.
Qed.


End counting.

(** ** The dead-set resolver and the report of [deadcode.go] *)

(** C4. Of the declared functions that share a source position at most one
    becomes an issue: the issues of a run are those of functions with
    pairwise distinct positions. One turn of the resolver's loop leaves the
    position of its function in the set of reachable positions, inserting
    it as the guard when it was absent, with or without a duplicate to
    come; a second function at that position then changes nothing; and
    when the loop ends every declared position is in the set. The sibling
    revision reports functions with pairwise distinct positions too. *)
Theorem dedup_by_position (env : Env) (rt : MapOrder)
    (settings : Deadcode.Settings) (initial : list packages.Package)
    (re : option regexp.Regexp) :
  Deadcode.passes env settings initial re →
  Deadcode.runAnalysis env rt settings
  = (Deadcode.issueOf env <$> Deadcode.reportedFuncs env rt re initial, None)
  ∧ NoDup (posn env <$> Deadcode.reportedFuncs env rt re initial)
  ∧ (∀ F G, F ∈ sourceFuncs env initial → G ∈ sourceFuncs env initial →
            posn env F = posn env G →
            length (filter (λ fn, posn env fn = posn env F)
                      (Deadcode.reportedFuncs env rt re initial)) ≤ 1)
  ∧ (∀ st F, index (group env st F).1 (posn env F) = true)
  ∧ (∀ st F G, posn env F = posn env G →
               group env (group env st F) G = group env st F)
  ∧ (∀ F, F ∈ sourceFuncs env initial →
          index (groupAll env (reachablePosn env rt initial)
                   (sourceFuncs env initial)).1 (posn env F) = true)
  ∧ (∀ re', NoDup (posn env <$> Deadfunc.reportedFuncs env rt re' initial)).
Proof.
  intros Hpass. split_and!.
  - by apply deadcode_run_passes.
  - apply deadcode_reported_NoDup.
  - intros F G _ _ _. apply at_most_one, deadcode_reported_NoDup.
  - apply group_guard.
  - apply group_suppressed.
  - intros F HF. by apply guard_inserted.
  - intros re'. apply deadfunc_reported_posn_NoDup.
Qed.

(** C4 on the example program with the test variant of [app] loaded,
    filtered by ["^app"]: one issue at the position of [helper]. *)
Lemma dedup_by_position_witness :
  length (filter (λ fn, posn Example.tested fn = posn Example.tested Example.f_helper)
            (Deadcode.reportedFuncs Example.tested Example.forwards
               Example.under_app Example.tested_initial)) ≤ 1.
Proof.
  refine (proj1 (proj2 (proj2 (dedup_by_position Example.tested Example.forwards
           (Deadcode.mkSettings false "^app") Example.tested_initial
           Example.under_app _))) Example.f_helper Example.f_helper' _ _ _).
  - unfold Deadcode.passes. split_and!.
    + reflexivity.
    + discriminate.
    + vm_compute. discriminate.
    + reflexivity.
    + discriminate.
  - evaluate.
  - evaluate.
  - reflexivity.
Defined.





(** C8. A filter that lets through every package path another lets
    through loses none of its issues, on the same loaded program. *)
Theorem filter_widening (env : Env) (rt rt' : MapOrder)
    (settings settings' : Deadcode.Settings) (initial : list packages.Package)
    (re re' : option regexp.Regexp) :
  Deadcode.passes env settings initial re →
  Deadcode.passes env settings' initial re' →
  (∀ pkgpath, Deadcode.skipped re pkgpath = false →
              Deadcode.skipped re' pkgpath = false) →
  (∀ fn, fn ∈ Deadcode.reportedFuncs env rt re initial →
         fn ∈ Deadcode.reportedFuncs env rt' re' initial)
  ∧ (∀ issue, issue ∈ (Deadcode.runAnalysis env rt settings).1 →
              issue ∈ (Deadcode.runAnalysis env rt' settings').1).
Proof.
  intros Hpass Hpass' Hwide.
  assert (∀ fn, fn ∈ Deadcode.reportedFuncs env rt re initial →
                fn ∈ Deadcode.reportedFuncs env rt' re' initial) as Hfn.
  { intros fn (Hin & Hsk & Hgen)%deadcode_reported_elem.
    apply deadcode_reported_elem. split_and!; [|by apply Hwide|done].
    by rewrite (firsts_order env rt' rt). }
  split; [done|].
  rewrite (deadcode_run_passes env rt settings initial re Hpass).
  rewrite (deadcode_run_passes env rt' settings' initial re' Hpass'). simpl.
  intros issue (fn & -> & Hin)%list_elem_of_fmap.
  apply list_elem_of_fmap_2. by apply Hfn.
Qed.

(** C8 on the example program: the issue of [helper] under the filter
    ["^app"] is still there with the filter unset. *)
Lemma filter_widening_witness :
  Deadcode.mkIssue "helper" "main.go" 11
  ∈ (Deadcode.runAnalysis Example.env Example.backwards
       (Deadcode.mkSettings false "")).1.
Proof.
  refine (proj2 (filter_widening Example.env Example.forwards Example.backwards
           (Deadcode.mkSettings false "^app") (Deadcode.mkSettings false "")
           Example.initial Example.under_app None _ _ _)
            (Deadcode.mkIssue "helper" "main.go" 11) _).
  - unfold Deadcode.passes. split_and!.
    + reflexivity.
    + discriminate.
    + vm_compute. discriminate.
    + reflexivity.
    + discriminate.
  - unfold Deadcode.passes. split_and!.
    + reflexivity.
    + discriminate.
    + vm_compute. discriminate.
    + reflexivity.
    + discriminate.
  - intros pkgpath _. reflexivity.
  - evaluate.
Defined.

(** ** The checks before the analysis *)

(** Either a fatal condition holds and the run returns an error, the same
    under every map order, or the run gets past the checks. *)
Lemma deadcode_run_cases (env : Env) (settings : Deadcode.Settings) :
  (Deadcode.fatal env settings
   ∧ ∃ err, ∀ rt, Deadcode.runAnalysis env rt settings = ([], Some err))
  ∨ (¬ Deadcode.fatal env settings
     ∧ ∃ initial re, Deadcode.passes env settings initial re).
Proof.
  unfold Deadcode.fatal, Deadcode.passes, Deadcode.runAnalysis.
  destruct (packages_Load env (Deadcode.Test settings)) as [err|initial] eqn:Hload.
  { left. split; [done|]. by eexists. }
  destruct initial as [|p initial].
  { left. split; [by left|]. by eexists. }
  rewrite bool_decide_eq_false_2 by done.
  destruct (decide (0 < packages_PrintErrors env (p :: initial))%Z) as [Herr|Herr].
  { left. split; [by right; left|]. rewrite bool_decide_eq_true_2 by done.
    by eexists. }
  rewrite bool_decide_eq_false_2 by done.
  destruct (Deadcode.compileFilter env (Deadcode.Filter settings))
    as [err|re] eqn:Hre.
  { left. split; [right; right; left; by exists err|]. by eexists. }
  destruct (mains env (p :: initial)) as [|m ms] eqn:Hmains.
  { left. split; [by right; right; right|]. by eexists. }
  right. split.
  - intros [?|[?|[[? ?]|?]]]; done.
  - exists (p :: initial), re. split_and!; try done; [lia|by rewrite Hmains].
Qed.

(** X12. Each check of [runAnalysis] has its own error, and the checks
    come in this order: the load, the number of packages, their errors,
    the filter (compiled only when it is not empty), the main packages. So
    a filter that does not compile is reported before a missing main
    package, and after a failed load. *)
Lemma deadcode_errors (env : Env) (rt : MapOrder) (settings : Deadcode.Settings) :
  (∀ err, packages_Load env (Deadcode.Test settings) = inl err →
     Deadcode.runAnalysis env rt settings = ([], Some ("Load: " +:+ err)))
  ∧ (packages_Load env (Deadcode.Test settings) = inr [] →
     Deadcode.runAnalysis env rt settings = ([], Some "no find packages"))
  ∧ (∀ initial,
       packages_Load env (Deadcode.Test settings) = inr initial →
       initial ≠ [] → (0 < packages_PrintErrors env initial)%Z →
       Deadcode.runAnalysis env rt settings = ([], Some "packages contain errors"))
  ∧ (∀ initial err,
       packages_Load env (Deadcode.Test settings) = inr initial →
       initial ≠ [] → (packages_PrintErrors env initial ≤ 0)%Z →
       Deadcode.Filter settings ≠ "" →
       regexp_Compile env (Deadcode.Filter settings) = inl err →
       Deadcode.runAnalysis env rt settings
       = ([], Some ("failed create filter: " +:+ err)))
  ∧ (∀ initial re,
       packages_Load env (Deadcode.Test settings) = inr initial →
       initial ≠ [] → (packages_PrintErrors env initial ≤ 0)%Z →
       Deadcode.compileFilter env (Deadcode.Filter settings) = inr re →
       mains env initial = [] →
       Deadcode.runAnalysis env rt settings = ([], Some "no find main packages")).
Proof.
  unfold Deadcode.runAnalysis. split_and!.
  - by intros err ->.
  - by intros ->.
  - intros initial -> Hne Herr.
    rewrite bool_decide_eq_false_2 by (by destruct initial).
    by rewrite bool_decide_eq_true_2.
  - intros initial err -> Hne Herr Hflag Hre.
    rewrite bool_decide_eq_false_2 by (by destruct initial).
    rewrite bool_decide_eq_false_2 by lia.
    unfold Deadcode.compileFilter. rewrite bool_decide_eq_true_2 by done.
    by rewrite Hre.
  - intros initial re -> Hne Herr -> Hmains.
    rewrite bool_decide_eq_false_2 by (by destruct initial).
    rewrite bool_decide_eq_false_2 by lia.
    rewrite Hmains. by rewrite bool_decide_eq_true_2.
Qed.

(** The five errors differ from each other, whatever the collaborators'
    own messages. *)
Lemma deadcode_errors_distinct (load compile : error) :
  NoDup [ "Load: " +:+ load; "no find packages"; "packages contain errors";
          "failed create filter: " +:+ compile; "no find main packages" ].
Proof.
  repeat (constructor; [rewrite ?not_elem_of_cons; split_and?;
                        try discriminate; by intros ?%elem_of_nil|]).
  constructor.
Qed.

(** The sibling revision ends the process instead: under the same
    conditions [log.Fatalf] is called and no issue list is returned. *)
Lemma deadfunc_run_cases (env : Env) :
  (∃ msg, ∀ rt, Deadfunc.runAnalysis env rt = Deadfunc.Fatal msg)
  ∨ (∃ initial re, Deadfunc.passes env initial re).
Proof.
  unfold Deadfunc.passes, Deadfunc.runAnalysis.
  destruct (packages_Load env false) as [err|initial] eqn:Hload.
  { left. by eexists. }
  destruct initial as [|p initial].
  { left. by eexists. }
  destruct (decide (0 < packages_PrintErrors env (p :: initial))%Z) as [Herr|Herr].
  { left. rewrite bool_decide_eq_true_2 by done. by eexists. }
  rewrite bool_decide_eq_false_2 by done.
  rewrite bool_decide_eq_true_2 by done.
  destruct (regexp_Compile env (Deadfunc.moduleFilter p)) as [err|re] eqn:Hre.
  { left. by eexists. }
  destruct (mains env (p :: initial)) as [|m ms] eqn:Hmains.
  { left. by eexists. }
  right. exists (p :: initial), re. split_and!; try done.
  - lia.
  - by exists p.
  - by rewrite Hmains.
Qed.




(** ** The initializer *)

(** C5, as the code has it. A function the oracle lists as reachable, with
    a valid position or named "init", has its position put in the set of
    reachable positions, valid or not; no function at that position is then
    reported, the function itself included. *)
Theorem listed_init_exempt (env : Env) (rt : MapOrder)
    (settings : Deadcode.Settings) (initial : list packages.Package)
    (re : option regexp.Regexp) (fn : ssa.Function) :
  Deadcode.passes env settings initial re →
  is_Some (res env initial !! fn) →
  token.IsValid (ssa.Pos fn) = true ∨ ssa.Name fn = "init" →
  Deadcode.runAnalysis env rt settings
  = (Deadcode.issueOf env <$> Deadcode.reportedFuncs env rt re initial, None)
  ∧ index (reachablePosn env rt initial) (posn env fn) = true
  ∧ (∀ g, g ∈ Deadcode.reportedFuncs env rt re initial →
          posn env g ≠ posn env fn)
  ∧ fn ∉ Deadcode.reportedFuncs env rt re initial.
Proof.
  intros Hpass Hres Hlisted.
  assert (index (reachablePosn env rt initial) (posn env fn) = true) as Hin.
  { apply reachablePosn_index. exists fn. split_and!; [done| |done].
    unfold listed. destruct Hlisted as [-> | ->]; [done|].
    by rewrite orb_true_r. }
  assert (∀ g, g ∈ Deadcode.reportedFuncs env rt re initial →
               posn env g ≠ posn env fn) as Hnone.
  { intros g (Hg & _)%deadcode_reported_elem.
    by eapply firsts_posn_seen. }
  split_and!; [by apply deadcode_run_passes|done|done|].
  intros Hfn. by apply (Hnone fn Hfn).
Qed.

(** C5 on the example program: the package initializer of [app] has no
    position and is listed by the oracle. *)
Lemma listed_init_exempt_witness :
  Example.f_init ∉ Deadcode.reportedFuncs Example.env Example.forwards
                     None Example.initial.
Proof.
  refine (proj2 (proj2 (proj2 (listed_init_exempt Example.env Example.forwards
           (Deadcode.mkSettings false "") Example.initial None Example.f_init
           _ _ _)))).
  - unfold Deadcode.passes. split_and!.
    + reflexivity.
    + discriminate.
    + vm_compute. discriminate.
    + reflexivity.
    + discriminate.
  - evaluate.
  - right. reflexivity.
Defined.

(** C5 as stated fails: a function named "init" that the oracle does not
    list, here the method [init] of a type of [app], is reported. *)
Lemma unlisted_init_reported :
  ssa.Name Example.f_tinit = "init"
  ∧ res Example.with_init Example.with_init_initial !! Example.f_tinit = None
  ∧ Example.f_tinit ∈ Deadcode.reportedFuncs Example.with_init Example.forwards
                        None Example.with_init_initial
  ∧ Deadcode.mkIssue "init" "main.go" 15
    ∈ (Deadcode.runAnalysis Example.with_init Example.forwards
         (Deadcode.mkSettings false "")).1.
Proof. split_and!; [reflexivity|reflexivity|evaluate|evaluate]. Qed.

(** ** Relative file names *)

(** C10. [Rel] and [GetFilenameRelative] answer for every file name: the
    path [filepath.Rel] makes relative to the working directory read once
    by [os.Getwd] (whose error is dropped), and the file name itself when
    [filepath.Rel] fails. *)
Theorem Rel_total (env : Env) (filename : string) :
  Deadfunc.GetFilenameRelative env filename = Deadcode.Rel env filename
  ∧ (∀ rel, filepath_Rel env (os_Getwd env).1 filename = inr rel →
            Deadcode.Rel env filename = rel)
  ∧ (∀ err, filepath_Rel env (os_Getwd env).1 filename = inl err →
            Deadcode.Rel env filename = filename).
Proof.
  unfold Deadfunc.GetFilenameRelative, Deadcode.Rel, cwd. split_and!.
  - done.
  - by intros rel ->.
  - by intros err ->.
Qed.

(** C10 in a process without a working directory: the absolute name stays. *)
Lemma Rel_total_witness :
  Deadcode.Rel Example.lost "/w/main.go" = "/w/main.go".
Proof.
  refine (proj2 (proj2 (Rel_total Example.lost "/w/main.go"))
            "Rel: can't make /w/main.go relative to " _).
  reflexivity.
Defined.

(** The issues of a run carry the file names [Rel] returns. *)
Lemma issue_filenames (env : Env) (rt : MapOrder) (settings : Deadcode.Settings)
    (issue : Deadcode.Issue) :
  issue ∈ (Deadcode.runAnalysis env rt settings).1 →
  ∃ fn, Deadcode.Filename issue = Deadcode.Rel env (token.Filename (posn env fn)).
Proof.
  destruct (deadcode_run_cases env settings)
    as [[_ [err Herr]]|[_ (initial & re & Hpass)]].
  - rewrite Herr. by intros ?%elem_of_nil.
  - rewrite (deadcode_run_passes env rt settings initial re Hpass). simpl.
    intros (fn & -> & _)%list_elem_of_fmap. by exists fn.
Qed.

(** ** The order of the report *)

Section order.
Variable env : Env.

Lemma deadcode_reported_perm rt1 rt2 re initial :
  Deadcode.reportedFuncs env rt1 re initial
  ≡ₚ Deadcode.reportedFuncs env rt2 re initial.
Proof.
  apply NoDup_Permutation.
  - eapply NoDup_fmap_1, deadcode_reported_NoDup.
  - eapply NoDup_fmap_1, deadcode_reported_NoDup.
  - intros fn. by rewrite !deadcode_reported_elem, (firsts_order env rt1 rt2).
Qed.

Lemma deadfunc_reported_NoDup rt re initial :
  NoDup (Deadfunc.reportedFuncs env rt re initial).
Proof. eapply NoDup_fmap_1, deadfunc_reported_posn_NoDup. Qed.

Lemma deadfunc_reported_perm rt1 rt2 re initial :
  Deadfunc.reportedFuncs env rt1 re initial
  ≡ₚ Deadfunc.reportedFuncs env rt2 re initial.
Proof.
  apply NoDup_Permutation; [apply deadfunc_reported_NoDup..|].
  intros fn. by rewrite !deadfunc_reported_elem, (firsts_order env rt1 rt2).
Qed.

Lemma sorted_block (pkg : string) (l1 l2 : list string) :
  Forall (λ x, x = pkg) l1 → Forall (String.le pkg) l2 →
  StronglySorted String.le l2 → StronglySorted String.le (l1 ++ l2).
Proof.
  intros H1 H2 Hs. induction l1 as [|x l1 IH]; simpl; [done|].
  apply Forall_cons in H1 as [-> H1]. constructor; [by apply IH|].
  apply Forall_app. split; [|done].
  eapply Forall_impl; [exact H1|]. by intros y ->.
Qed.

(** With the package paths visited in ascending order, the reported
    functions come in ascending order of package path. *)
Lemma survivors_sorted rt skipped gen B order :
  sorted_out B → StronglySorted String.le order →
  StronglySorted String.le (ssa.PkgPath <$> survivors env rt skipped gen B order).
Proof.
  intros Hout Hs. induction Hs as [|pkg order Hs IH Hle]; [constructor|].
  unfold survivors. rewrite filter_cons.
  destruct (decide (skipped pkg = false)) as [Hsk|Hsk]; [|exact IH].
  rewrite bind_cons, fmap_app. apply (sorted_block pkg).
  - apply Forall_forall. intros x (fn & -> & Hfn)%list_elem_of_fmap.
    apply list_elem_of_filter in Hfn as [_ Hfn].
    apply elem_of_range in Hfn. by apply Hout.
  - apply Forall_forall. intros x (fn & -> & Hfn)%list_elem_of_fmap.
    rewrite Forall_forall in Hle. apply Hle.
    apply (survivors_pkgpath env rt skipped gen B order fn Hout).
    apply elem_of_survivors. apply list_elem_of_bind in Hfn as (q & Hq & Hin).
    apply list_elem_of_filter in Hq as [Hgen Hq], Hin as [Hskq Hin].
    apply elem_of_range in Hq. by exists q.
  - exact IH.
Qed.

(** The sibling revision sorts: its report is in ascending order of
    package path under every map order. *)
Lemma deadfunc_sorted rt re initial :
  StronglySorted String.le
    (ssa.PkgPath <$> Deadfunc.reportedFuncs env rt re initial).
Proof.
  apply survivors_sorted; [apply byPkgPath_sorted_out|].
  apply StronglySorted_merge_sort; apply _.
Qed.

Lemma deadfunc_same_packages rt1 rt2 re initial :
  ssa.PkgPath <$> Deadfunc.reportedFuncs env rt1 re initial
  = ssa.PkgPath <$> Deadfunc.reportedFuncs env rt2 re initial.
Proof.
  apply (StronglySorted_unique String.le); try apply deadfunc_sorted.
  by rewrite (deadfunc_reported_perm rt1 rt2).
Qed.

End order.

(** C9, as the code has it. Two runs on the same input return the same
    error and the same issues, in an order that may differ: the two issue
    lists are rearrangements of each other. The sibling revision behaves
    the same (it ends in the same [log.Fatalf] or returns issues that are
    rearrangements of each other). *)
Theorem rerun_same_issues (env : Env) (rt1 rt2 : MapOrder)
    (settings : Deadcode.Settings) :
  (Deadcode.runAnalysis env rt1 settings).1
  ≡ₚ (Deadcode.runAnalysis env rt2 settings).1
  ∧ (Deadcode.runAnalysis env rt1 settings).2
    = (Deadcode.runAnalysis env rt2 settings).2
  ∧ match Deadfunc.runAnalysis env rt1, Deadfunc.runAnalysis env rt2 with
    | Deadfunc.Return r1, Deadfunc.Return r2 => r1.1 ≡ₚ r2.1 ∧ r1.2 = r2.2
    | Deadfunc.Fatal msg1, Deadfunc.Fatal msg2 => msg1 = msg2
    | _, _ => False
    end.
Proof.
  split_and!.
  - destruct (deadcode_run_cases env settings)
      as [[_ [err Herr]]|[_ (initial & re & Hpass)]].
    + by rewrite !Herr.
    + rewrite !(deadcode_run_passes env _ settings initial re Hpass). simpl.
      by rewrite (deadcode_reported_perm env rt1 rt2).
  - destruct (deadcode_run_cases env settings)
      as [[_ [err Herr]]|[_ (initial & re & Hpass)]].
    + by rewrite !Herr.
    + by rewrite !(deadcode_run_passes env _ settings initial re Hpass).
  - destruct (deadfunc_run_cases env) as [[msg Hmsg]|(initial & re & Hpass)].
    + by rewrite !Hmsg.
    + rewrite !(deadfunc_run_passes env _ initial re Hpass). simpl.
      by rewrite (deadfunc_reported_perm env rt1 rt2).
Qed.

(** C9 as stated fails: two runs on the example program that range over
    their maps in different orders return the issues in different orders,
    in both revisions. *)
Lemma rerun_order_differs :
  Deadcode.runAnalysis Example.env Example.forwards (Deadcode.mkSettings false "")
  ≠ Deadcode.runAnalysis Example.env Example.backwards (Deadcode.mkSettings false "")
  ∧ Deadfunc.runAnalysis Example.env Example.forwards
    ≠ Deadfunc.runAnalysis Example.env Example.backwards.
Proof. split; vm_compute; discriminate. Qed.

(** ** Where [deadcode.go] departs from its sibling *)

(** With the filter unset [deadcode.go] compiles nothing and skips no
    package. *)
Lemma unset_filter_skips_nothing (env : Env) (pkgpath : string) :
  Deadcode.compileFilter env "" = inr None
  ∧ Deadcode.skipped None pkgpath = false.
Proof. done. Qed.

(** The sibling revision derives its filter from the module of the first
    package loaded. *)
Lemma sibling_module_filter (first : packages.Package) (path : string) :
  packages.Module_ first = Some (packages.mkModule path) → path ≠ "" →
  Deadfunc.moduleFilter first = "^" +:+ regexp.QuoteMeta path +:+ "\b".
Proof.
  intros Hmod Hpath. unfold Deadfunc.moduleFilter. rewrite Hmod. simpl.
  by rewrite bool_decide_eq_true_2.
Qed.

(** C1 at a failing input. The module of the example program is [app];
    with the filter unset [deadcode.go] reports [Idle] of the package
    [dep/x], which belongs to another module, where the sibling revision
    reports the functions of [app] and [app/internal/util] only. *)
Theorem unset_filter_reports_other_module :
  head Example.initial ≫= packages.Module_ = Some (packages.mkModule "app")
  ∧ ssa.PkgPath Example.f_idle = "dep/x"
  ∧ Deadcode.runAnalysis Example.env Example.forwards (Deadcode.mkSettings false "")
    = ([ Deadcode.mkIssue "Trim" "internal/util/util.go" 8;
         Deadcode.mkIssue "Unused" "internal/util/util.go" 3;
         Deadcode.mkIssue "helper" "main.go" 11;
         Deadcode.mkIssue "Idle" "../go/pkg/mod/dep/x/x.go" 5 ], None)
  ∧ Deadfunc.runAnalysis Example.env Example.forwards
    = Deadfunc.Return
        ([ Deadfunc.mkIssue "helper" "main.go" 11 111%Z;
           Deadfunc.mkIssue "Trim" "internal/util/util.go" 8 308%Z;
           Deadfunc.mkIssue "Unused" "internal/util/util.go" 3 303%Z ], None).
Proof. split_and!; vm_compute; reflexivity. Qed.

(** C2 at a failing input. [deadcode.go] ranges over the keys of
    [byPkgPath] without sorting them: under the map order [forwards] the
    functions of [app/internal/util] are reported before that of [app]. *)
Theorem report_order_unsorted :
  Deadcode.runAnalysis Example.env Example.forwards (Deadcode.mkSettings false "")
  = (Deadcode.issueOf Example.env <$>
       Deadcode.reportedFuncs Example.env Example.forwards None Example.initial,
     None)
  ∧ ssa.PkgPath <$>
      Deadcode.reportedFuncs Example.env Example.forwards None Example.initial
    = ["app/internal/util"; "app/internal/util"; "app"; "dep/x"]
  ∧ ¬ Sorted String.le
        (ssa.PkgPath <$>
           Deadcode.reportedFuncs Example.env Example.forwards None Example.initial).
Proof.
  split_and!.
  - vm_compute. reflexivity.
  - vm_compute. reflexivity.
  - intros Hs. apply (bool_decide_pack _) in Hs. vm_compute in Hs. exact Hs.
Qed.

(** ** The guard and a second pass *)

(** Once every position of [l] is in the set, the loop over [l] changes
    nothing: a pass over the set a first pass has left groups no function. *)
Lemma group_all_seen (env : Env) (l : list ssa.Function)
    (st : gmap token.Position bool * gmap string (gmap ssa.Function bool)) :
  (∀ fn, fn ∈ l → index st.1 (posn env fn) = true) →
  foldl (group env) st l = st.
Proof.
  induction l as [|fn l IH]; intros Hseen; simpl; [done|].
  assert (group env st fn = st) as ->.
  { destruct st as [R B]. simpl in *. by rewrite Hseen by (by left). }
  apply IH. intros g Hg. apply Hseen. by right.
Qed.

(** X14. The guard makes the resolver's loop safe to repeat: run again
    over the set of positions a first pass has left, it groups no
    function at all. *)
Lemma second_pass_groups_nothing (env : Env) (rt : MapOrder)
    (initial : list packages.Package) :
  (groupAll env
     (groupAll env (reachablePosn env rt initial) (sourceFuncs env initial)).1
     (sourceFuncs env initial)).2 = ∅.
Proof.
  unfold groupAll at 1. rewrite group_all_seen; [done|].
  intros fn Hfn. simpl. by apply guard_inserted.
Qed.

(** ** The scenarios of the specification on the example program *)

(** Scenario A: [main] calls [used]; [helper] is not called. Under the
    filter ["^app"] the issues are those of [helper] and of the two
    functions of [app/internal/util], none for [main] or [used]. *)
Lemma scenario_unused_helper :
  Deadcode.runAnalysis Example.env Example.forwards (Deadcode.mkSettings false "^app")
  = ([ Deadcode.mkIssue "Trim" "internal/util/util.go" 8;
       Deadcode.mkIssue "Unused" "internal/util/util.go" 3;
       Deadcode.mkIssue "helper" "main.go" 11 ], None).
Proof. vm_compute. reflexivity. Qed.

(** Scenario B: [genHelper] is declared in a generated file and called by
    nobody; no issue has that file, even when the oracle lists nothing. *)
Lemma scenario_generated_file :
  Deadcode.runAnalysis Example.unreached Example.forwards (Deadcode.mkSettings false "")
  = ([ Deadcode.mkIssue "Trim" "internal/util/util.go" 8;
       Deadcode.mkIssue "Unused" "internal/util/util.go" 3;
       Deadcode.mkIssue "used" "main.go" 7;
       Deadcode.mkIssue "main" "main.go" 3;
       Deadcode.mkIssue "helper" "main.go" 11;
       Deadcode.mkIssue "Idle" "../go/pkg/mod/dep/x/x.go" 5 ], None)
  ∧ reachablePosn Example.unreached Example.forwards Example.initial = ∅.
Proof. split; vm_compute; reflexivity. Qed.

(** Scenario D: the filter ["^app/internal"] keeps the functions of
    [app/internal/util] only. *)
Lemma scenario_filter :
  Deadcode.runAnalysis Example.env Example.forwards
    (Deadcode.mkSettings false "^app/internal")
  = ([ Deadcode.mkIssue "Trim" "internal/util/util.go" 8;
       Deadcode.mkIssue "Unused" "internal/util/util.go" 3 ], None).
Proof. vm_compute. reflexivity. Qed.

(** Scenario E: without a main package the run returns its error and no
    issue; the sibling revision ends the process. *)
Lemma scenario_no_entry_point :
  Deadcode.runAnalysis Example.library Example.forwards (Deadcode.mkSettings false "")
  = ([], Some "no find main packages")
  ∧ Deadfunc.runAnalysis Example.library Example.forwards
    = Deadfunc.Fatal "no main packages".
Proof. split; vm_compute; reflexivity. Qed.

(** Without a working directory the issues keep the absolute file names. *)
Lemma scenario_no_working_directory :
  Deadcode.runAnalysis Example.lost Example.forwards
    (Deadcode.mkSettings false "^app/internal")
  = ([ Deadcode.mkIssue "Trim" "/w/internal/util/util.go" 8;
       Deadcode.mkIssue "Unused" "/w/internal/util/util.go" 3 ], None).
Proof. vm_compute. reflexivity. Qed.

(** With the test variant of [app] loaded, each declaration is still
    reported once. *)
Lemma scenario_test_variant :
  Deadcode.runAnalysis Example.tested Example.forwards (Deadcode.mkSettings false "^app")
  = ([ Deadcode.mkIssue "Trim" "internal/util/util.go" 8;
       Deadcode.mkIssue "Unused" "internal/util/util.go" 3;
       Deadcode.mkIssue "helper" "main.go" 11 ], None).
Proof. vm_compute. reflexivity. Qed.

(** * The plugin around the analysis *)

(** ** Syntax trees *)

Lemma Node_induction (P : ast.Node → Prop) :
  (∀ k p cs, Forall P cs → P (ast.mkNode k p cs)) → ∀ n, P n.
Proof.
  intros Hnode. fix IH 1. intros [k p cs]. apply Hnode.
  induction cs as [|c cs IHcs]; constructor; [apply IH|exact IHcs].
Qed.

Lemma Inspect_unfold {S : Type} (f : option ast.Node → S → S * bool) k p cs s :
  ast.Inspect f (ast.mkNode k p cs) s
  = if (f (Some (ast.mkNode k p cs)) s).2
    then (f None (foldl (λ s c, ast.Inspect f c s)
                    (f (Some (ast.mkNode k p cs)) s).1 cs)).1
    else (f (Some (ast.mkNode k p cs)) s).1.
Proof.
  simpl. destruct (f (Some (ast.mkNode k p cs)) s) as [s1 b]. simpl.
  destruct b; [|done]. do 2 f_equal.
  revert s1. induction cs as [|c cs IH]; intros s1; [done|]. simpl. apply IH.
Qed.

Lemma nodes_unfold k p cs :
  ast.nodes (ast.mkNode k p cs) = ast.mkNode k p cs :: (cs ≫= ast.nodes).
Proof.
  reflexivity.
Qed.

Lemma funcDecls_unfold k p cs :
  ast.funcDecls (ast.mkNode k p cs)
  = (if decide (k = ast.FuncDeclNode) then [p] else []) ++ (cs ≫= ast.funcDecls).
Proof.
  assert (ast.Pos <$> filter (λ n, ast.kind n = ast.FuncDeclNode) (cs ≫= ast.nodes)
          = cs ≫= ast.funcDecls) as Hcs.
  { induction cs as [|c cs IH]; [done|].
    by rewrite !bind_cons, filter_app, fmap_app, IH. }
  unfold ast.funcDecls. rewrite nodes_unfold, filter_cons.
  change (ast.kind (ast.mkNode k p cs)) with k.
  destruct (decide (k = ast.FuncDeclNode)).
  - by rewrite fmap_cons, Hcs.
  - by rewrite Hcs.
Qed.

(** ** [run] of [deadcode.go] *)

Section run.
Variable env : Env.
Variable pass : analysis.Pass.

Lemma Inspect_visit issue file reported :
  ast.Inspect (Deadcode.visit pass issue) file reported
  = reported ++ (Deadcode.diagnosticOf issue <$> Deadcode.onLine pass issue file).
Proof.
  revert reported. induction file as [k p cs IH] using Node_induction.
  intros reported. rewrite Inspect_unfold.
  assert ((Deadcode.visit pass issue (Some (ast.mkNode k p cs)) reported).2 = true)
    as -> by (simpl; repeat case_decide; done).
  assert (∀ s, (Deadcode.visit pass issue None s).1 = s) as -> by done.
  assert (∀ s, foldl (λ s c, ast.Inspect (Deadcode.visit pass issue) c s) s cs
               = s ++ (Deadcode.diagnosticOf issue <$> (cs ≫= Deadcode.onLine pass issue)))
    as ->.
  { induction IH as [|c cs Hc _ IHcs]; intros s.
    - simpl. by rewrite app_nil_r.
    - cbn [foldl]. by rewrite IHcs, Hc, bind_cons, fmap_app, app_assoc. }
  unfold Deadcode.onLine at 2. rewrite funcDecls_unfold, filter_app, fmap_app, app_assoc.
  assert (filter (λ p, token.Line (analysis.Position pass p) = Deadcode.Line issue)
                 (cs ≫= ast.funcDecls) = cs ≫= Deadcode.onLine pass issue) as ->.
  { clear IH. induction cs as [|c cs IHcs]; [done|].
    by rewrite !bind_cons, filter_app, IHcs. }
  f_equal. unfold Deadcode.visit. change (ast.kind (ast.mkNode k p cs)) with k.
  change (ast.Pos (ast.mkNode k p cs)) with p.
  destruct (decide (k = ast.FuncDeclNode)) as [->|Hk].
  - rewrite filter_cons, filter_nil. by case_decide; rewrite ?app_nil_r.
  - rewrite filter_nil. by rewrite app_nil_r.
Qed.

End run.

Section run_loops.
Variable env : Env.
Variable pass : analysis.Pass.

Lemma deadcode_foldl_runIssue file filename reported issues :
  foldl (Deadcode.runIssue pass file filename) reported issues
  = reported
    ++ (issue ← filter (λ i, filename = Deadcode.Filename i) issues;
        Deadcode.diagnosticOf issue <$> Deadcode.onLine pass issue file).
Proof.
  revert reported. induction issues as [|issue issues IH]; intros reported.
  - simpl. by rewrite app_nil_r.
  - cbn [foldl]. rewrite IH, filter_cons. unfold Deadcode.runIssue.
    destruct (decide (filename = Deadcode.Filename issue)) as [Heq|Hne].
    + rewrite decide_False by (by intros ?). 
      by rewrite Inspect_visit, bind_cons, app_assoc.
    + by rewrite decide_True by done.
Qed.

Lemma deadcode_foldl_runFile d reported files :
  foldl (Deadcode.runFile env d pass) reported files
  = reported
    ++ (file ← files;
        issue ← filter (λ i, Deadcode.Rel env
                               (token.Filename
                                  (analysis.Position pass (ast.Pos file)))
                             = Deadcode.Filename i) (Deadcode.issues d);
        Deadcode.diagnosticOf issue <$> Deadcode.onLine pass issue file).
Proof.
  revert reported. induction files as [|file files IH]; intros reported.
  - simpl. by rewrite app_nil_r.
  - cbn [foldl]. rewrite IH. unfold Deadcode.runFile.
    by rewrite deadcode_foldl_runIssue, bind_cons, app_assoc.
Qed.

Lemma deadfunc_foldl_runIssue pos reported issues :
  foldl (Deadfunc.runIssue env pos) reported issues
  = reported
    ++ (Deadfunc.diagnosticOf <$>
          filter (λ i, Deadfunc.GetFilenameRelative env (token.Filename pos)
                       = Deadfunc.Filename i) issues).
Proof.
  revert reported. induction issues as [|issue issues IH]; intros reported.
  - simpl. by rewrite app_nil_r.
  - cbn [foldl]. rewrite IH, filter_cons. unfold Deadfunc.runIssue.
    case_decide; [|done]. by rewrite fmap_cons, <- app_assoc.
Qed.

Lemma deadfunc_foldl_runFile d reported files :
  foldl (Deadfunc.runFile env d pass) reported files
  = reported
    ++ (file ← files;
        Deadfunc.diagnosticOf <$>
          filter (λ i, Deadfunc.GetFilenameRelative env
                         (token.Filename (analysis.Position pass (ast.Pos file)))
                       = Deadfunc.Filename i) (Deadfunc.issues d)).
Proof.
  revert reported. induction files as [|file files IH]; intros reported.
  - simpl. by rewrite app_nil_r.
  - cbn [foldl]. rewrite IH. unfold Deadfunc.runFile.
    by rewrite deadfunc_foldl_runIssue, bind_cons, app_assoc.
Qed.

End run_loops.

(** X1. [run] of [deadcode.go] reports, file by file in the order of
    [pass.Files] and for each file issue by issue in the order of
    [d.issues], one diagnostic for every function declaration of the file
    that lies on the line of an issue carrying the file's relative name:
    at the declaration's position, with the issue's function name in the
    message. It reports nothing else, and its error is nil. *)
Theorem run_sequence (env : Env) (d : Deadcode.DeadCode) (pass : analysis.Pass) :
  Deadcode.run env d pass
  = (file ← analysis.Files pass;
     issue ← filter (λ i, Deadcode.Rel env
                            (token.Filename
                               (analysis.Position pass (ast.Pos file)))
                          = Deadcode.Filename i) (Deadcode.issues d);
     Deadcode.diagnosticOf issue <$> Deadcode.onLine pass issue file,
     None).
Proof. unfold Deadcode.run. by rewrite deadcode_foldl_runFile. Qed.

(** X2. [run] of the sibling revision reports, for every file of the pass
    and every issue carrying the file's relative name, one diagnostic at
    the position stored in the issue, whatever the file declares; its
    error is nil. *)
Theorem sibling_run_sequence (env : Env) (d : Deadfunc.DeadCode)
    (pass : analysis.Pass) :
  Deadfunc.run env d pass
  = (file ← analysis.Files pass;
     Deadfunc.diagnosticOf <$>
       filter (λ i, Deadfunc.GetFilenameRelative env
                      (token.Filename (analysis.Position pass (ast.Pos file)))
                    = Deadfunc.Filename i) (Deadfunc.issues d),
     None).
Proof. unfold Deadfunc.run. by rewrite deadfunc_foldl_runFile. Qed.

Lemma deadcode_run_elem (env : Env) (d : Deadcode.DeadCode) (pass : analysis.Pass)
    (diag : analysis.Diagnostic) :
  diag ∈ (Deadcode.run env d pass).1
  ↔ ∃ file issue pos,
      file ∈ analysis.Files pass ∧ issue ∈ Deadcode.issues d
      ∧ Deadcode.Rel env (token.Filename (analysis.Position pass (ast.Pos file)))
        = Deadcode.Filename issue
      ∧ pos ∈ ast.funcDecls file
      ∧ token.Line (analysis.Position pass pos) = Deadcode.Line issue
      ∧ diag = Deadcode.diagnosticOf issue pos.
Proof.
  unfold Deadcode.run. rewrite deadcode_foldl_runFile. simpl.
  rewrite list_elem_of_bind. split.
  - intros (file & (issue & Hd & Hi)%list_elem_of_bind & Hfile).
    apply list_elem_of_filter in Hi as [Hname Hi].
    apply list_elem_of_fmap in Hd as (pos & -> & Hpos).
    apply list_elem_of_filter in Hpos as [Hline Hpos].
    by exists file, issue, pos.
  - intros (file & issue & pos & Hfile & Hi & Hname & Hpos & Hline & ->).
    exists file. split; [|done]. apply list_elem_of_bind. exists issue. split.
    + apply list_elem_of_fmap_2. by apply list_elem_of_filter.
    + by apply list_elem_of_filter.
Qed.

Lemma deadfunc_run_elem (env : Env) (d : Deadfunc.DeadCode) (pass : analysis.Pass)
    (diag : analysis.Diagnostic) :
  diag ∈ (Deadfunc.run env d pass).1
  ↔ ∃ file issue,
      file ∈ analysis.Files pass ∧ issue ∈ Deadfunc.issues d
      ∧ Deadfunc.GetFilenameRelative env
          (token.Filename (analysis.Position pass (ast.Pos file)))
        = Deadfunc.Filename issue
      ∧ diag = Deadfunc.diagnosticOf issue.
Proof.
  unfold Deadfunc.run. rewrite deadfunc_foldl_runFile. simpl.
  rewrite list_elem_of_bind. split.
  - intros (file & (issue & -> & Hi)%list_elem_of_fmap & Hfile).
    apply list_elem_of_filter in Hi as [Hname Hi]. by exists file, issue.
  - intros (file & issue & Hfile & Hi & Hname & ->).
    exists file. split; [|done]. apply list_elem_of_fmap_2.
    by apply list_elem_of_filter.
Qed.

(** X3. From the settings to the diagnostics. When the settings decode
    and the analysis gets past its checks, [NewDeadCode] returns a plugin
    and no error, and [run] on a pass reports exactly this: for every
    reported function, every file of the pass with the same relative name
    as the function's file, and every function declaration of that file on
    the function's line, a diagnostic at the declaration with the
    function's name. *)
Theorem lint_flags_dead_functions (any : Type)
    (DecodeSettings : any → error + Deadcode.Settings)
    (env : Env) (rt : MapOrder) (settings : any) (s : Deadcode.Settings)
    (initial : list packages.Package) (re : option regexp.Regexp)
    (pass : analysis.Pass) :
  DecodeSettings settings = inr s →
  Deadcode.passes env s initial re →
  ∃ d, Deadcode.NewDeadCode any DecodeSettings env rt settings = (Some d, None)
       ∧ ∀ diag,
           diag ∈ (Deadcode.run env d pass).1
           ↔ ∃ fn file pos,
               fn ∈ Deadcode.reportedFuncs env rt re initial
               ∧ file ∈ analysis.Files pass
               ∧ pos ∈ ast.funcDecls file
               ∧ Deadcode.Rel env
                   (token.Filename (analysis.Position pass (ast.Pos file)))
                 = Deadcode.Rel env (token.Filename (posn env fn))
               ∧ token.Line (analysis.Position pass pos)
                 = token.Line (posn env fn)
               ∧ diag = Deadcode.diagnosticOf (Deadcode.issueOf env fn) pos.
Proof.
  intros Hdec Hpass.
  exists (Deadcode.mkDeadCode
            (Deadcode.issueOf env <$> Deadcode.reportedFuncs env rt re initial)).
  split.
  - unfold Deadcode.NewDeadCode. rewrite Hdec.
    by rewrite (deadcode_run_passes env rt s initial re Hpass).
  - intros diag. rewrite deadcode_run_elem. simpl. split.
    + intros (file & issue & pos & Hfile & Hi & Hname & Hpos & Hline & ->).
      apply list_elem_of_fmap in Hi as (fn & -> & Hfn).
      by exists fn, file, pos.
    + intros (fn & file & pos & Hfn & Hfile & Hpos & Hname & Hline & ->).
      exists file, (Deadcode.issueOf env fn), pos. split_and!; try done.
      by apply list_elem_of_fmap_2.
Qed.

(** X3 on the example program and the pass over [app]: [helper], declared
    on line 11 of [/w/main.go], is flagged at its declaration. *)
Lemma lint_flags_dead_functions_witness :
  ∃ d, Deadcode.NewDeadCode _ Lint.DecodeSettings Example.env Example.forwards
         (Some (Deadcode.mkSettings false "^app")) = (Some d, None)
       ∧ analysis.mkDiagnostic 1110%Z 0%Z "" "func `helper` is unused"
         ∈ (Deadcode.run Example.env d Lint.pass).1.
Proof.
  destruct (lint_flags_dead_functions _ Lint.DecodeSettings Example.env
              Example.forwards (Some (Deadcode.mkSettings false "^app"))
              (Deadcode.mkSettings false "^app") Example.initial
              Example.under_app Lint.pass) as (d & Hd & Hrun).
  - reflexivity.
  - unfold Deadcode.passes. split_and!.
    + reflexivity.
    + discriminate.
    + vm_compute. discriminate.
    + reflexivity.
    + discriminate.
  - exists d. split; [exact Hd|]. apply Hrun.
    exists Example.f_helper, Lint.main_file, 1110%Z. split_and!.
    + evaluate.
    + apply list_elem_of_here.
    + evaluate.
    + reflexivity.
    + reflexivity.
    + reflexivity.
Defined.

(** X4. [NewDeadCode] returns an error and no plugin exactly when the
    settings do not decode or the analysis meets a fatal condition, and
    the error is the decoder's or the analysis's own; otherwise it returns
    a plugin holding the issues of the analysis, and no error. *)
Theorem NewDeadCode_result (any : Type)
    (DecodeSettings : any → error + Deadcode.Settings)
    (env : Env) (rt : MapOrder) (settings : any) :
  match DecodeSettings settings with
  | inl err =>
      Deadcode.NewDeadCode any DecodeSettings env rt settings = (None, Some err)
  | inr s =>
      (Deadcode.fatal env s
       ∧ ∃ err, Deadcode.runAnalysis env rt s = ([], Some err)
                ∧ Deadcode.NewDeadCode any DecodeSettings env rt settings
                  = (None, Some err))
      ∨ (¬ Deadcode.fatal env s
         ∧ Deadcode.NewDeadCode any DecodeSettings env rt settings
           = (Some (Deadcode.mkDeadCode (Deadcode.runAnalysis env rt s).1), None))
  end.
Proof.
  unfold Deadcode.NewDeadCode.
  destruct (DecodeSettings settings) as [err|s]; [done|].
  destruct (deadcode_run_cases env s)
    as [[Hfatal [err Herr]]|[Hok (initial & re & Hpass)]].
  - left. split; [done|]. exists err. by rewrite Herr.
  - right. split; [done|].
    by rewrite (deadcode_run_passes env rt s initial re Hpass).
Qed.

(** X5. [New] of the sibling revision never returns an error: it ends the
    process in [log.Fatalf] or returns a plugin holding the issues of the
    analysis. Its settings play no part. *)
Theorem sibling_New_never_errors (any : Type) (env : Env) (rt : MapOrder)
    (settings : any) :
  (∃ msg, Deadfunc.runAnalysis env rt = Deadfunc.Fatal msg
          ∧ Deadfunc.New env rt settings = Deadfunc.Fatal msg)
  ∨ (∃ issues, Deadfunc.runAnalysis env rt = Deadfunc.Return (issues, None)
               ∧ Deadfunc.New env rt settings
                 = Deadfunc.Return (Some (Deadfunc.mkDeadCode issues), None)).
Proof.
  unfold Deadfunc.New.
  destruct (deadfunc_run_cases env) as [[msg Hmsg]|(initial & re & Hpass)].
  - left. exists msg. by rewrite Hmsg.
  - right. rewrite (deadfunc_run_passes env rt initial re Hpass). by eexists.
Qed.

(** X6. From the sibling's analysis to its diagnostics. When the analysis
    gets past its checks, [New] returns a plugin, and [run] on a pass
    reports exactly one kind of diagnostic: for a reported function and a
    file of the pass with the same relative name as the function's file,
    at the function's own position, with its name. *)
Theorem sibling_lint_flags_dead_functions (any : Type) (env : Env)
    (rt : MapOrder) (settings : any) (initial : list packages.Package)
    (re : regexp.Regexp) (pass : analysis.Pass) :
  Deadfunc.passes env initial re →
  ∃ d, Deadfunc.New env rt settings = Deadfunc.Return (Some d, None)
       ∧ ∀ diag,
           diag ∈ (Deadfunc.run env d pass).1
           ↔ ∃ fn file,
               fn ∈ Deadfunc.reportedFuncs env rt re initial
               ∧ file ∈ analysis.Files pass
               ∧ Deadfunc.GetFilenameRelative env
                   (token.Filename (analysis.Position pass (ast.Pos file)))
                 = Deadfunc.GetFilenameRelative env (token.Filename (posn env fn))
               ∧ diag = analysis.mkDiagnostic (ssa.Pos fn) 0%Z "deadcode"
                          ("unused func `" +:+ ssa.Name fn +:+ "`").
Proof.
  intros Hpass.
  exists (Deadfunc.mkDeadCode
            (Deadfunc.issueOf env <$> Deadfunc.reportedFuncs env rt re initial)).
  split.
  - unfold Deadfunc.New.
    by rewrite (deadfunc_run_passes env rt initial re Hpass).
  - intros diag. rewrite deadfunc_run_elem. simpl. split.
    + intros (file & issue & Hfile & Hi & Hname & ->).
      apply list_elem_of_fmap in Hi as (fn & -> & Hfn). by exists fn, file.
    + intros (fn & file & Hfn & Hfile & Hname & ->).
      exists file, (Deadfunc.issueOf env fn). split_and!; try done.
      by apply list_elem_of_fmap_2.
Qed.

(** X6 on the example program and the pass over [app]. *)
Lemma sibling_lint_flags_dead_functions_witness :
  ∃ d, Deadfunc.New Example.env Example.forwards tt = Deadfunc.Return (Some d, None)
       ∧ analysis.mkDiagnostic 111%Z 0%Z "deadcode" "unused func `helper`"
         ∈ (Deadfunc.run Example.env d Lint.pass).1.
Proof.
  destruct (sibling_lint_flags_dead_functions unit Example.env Example.forwards tt
              Example.initial
              (regexp.mkRegexp (Example.matchLiteral "app" true false))
              Lint.pass) as (d & Hd & Hrun).
  - unfold Deadfunc.passes. split_and!.
    + reflexivity.
    + vm_compute. discriminate.
    + eexists. split; reflexivity.
    + discriminate.
  - exists d. split; [exact Hd|]. apply Hrun.
    exists Example.f_helper, Lint.main_file. split_and!.
    + evaluate.
    + apply list_elem_of_here.
    + reflexivity.
    + reflexivity.
Defined.

(** ** Receiver types *)

Lemma Unalias_aliases (k : nat) (t : types.Typ) :
  types.Unalias (types.aliases k t) = types.Unalias t.
Proof. induction k as [|k IH]; simpl; [done|exact IH]. Qed.

Lemma Unalias_chain (t : types.Typ) :
  ∃ k, t = types.aliases k (types.Unalias t).
Proof.
  induction t as [name|elem _|rhs [k IH]|descr]; simpl.
  - by exists 0.
  - by exists 0.
  - exists (S k). simpl. by rewrite <- IH.
  - by exists 0.
Qed.

Lemma Unalias_not_alias (t rhs : types.Typ) : types.Unalias t ≠ types.Alias rhs.
Proof. induction t; simpl; done. Qed.

(** X7. [ReceiverNamed] finds the named type of a receiver exactly when the
    receiver's type is [N] or [*N] for a named type [N], under any number
    of alias declarations around the pointer and around [N]; [isPtr] tells
    which, and is true exactly for a pointer under aliases. A pointer to a
    pointer gives no named type. Both revisions hold the same function. *)
Theorem ReceiverNamed_forms (recv : types.Var) :
  (∀ isPtr name,
     Deadcode.ReceiverNamed recv = (isPtr, Some name)
     ↔ (isPtr = false
        ∧ ∃ k, types.Type_ recv = types.aliases k (types.Named name))
       ∨ (isPtr = true
          ∧ ∃ j k, types.Type_ recv
                   = types.aliases j
                       (types.Pointer (types.aliases k (types.Named name)))))
  ∧ ((Deadcode.ReceiverNamed recv).1 = true
     ↔ ∃ j elem, types.Type_ recv = types.aliases j (types.Pointer elem))
  ∧ (∀ j elem, types.Type_ recv
               = types.aliases j (types.Pointer (types.Pointer elem)) →
               Deadcode.ReceiverNamed recv = (true, None))
  ∧ Deadfunc.ReceiverNamed recv = Deadcode.ReceiverNamed recv.
Proof.
  destruct recv as [t]. unfold Deadcode.ReceiverNamed. simpl. split_and!.
  - intros isPtr name. split.
    + destruct (Unalias_chain t) as [j Hj].
      destruct (types.Unalias t) as [n|elem|rhs|descr] eqn:Ht; simpl.
      * intros Heq. rewrite Ht in Heq. simplify_eq. left. split; [done|].
        by exists j.
      * intros Heq. right.
        destruct (Unalias_chain elem) as [k Hk].
        destruct (types.Unalias elem) as [n| | |] eqn:He; try done.
        simplify_eq. split; [done|]. by exists j, k.
      * by apply Unalias_not_alias in Ht.
      * intros Heq. by rewrite Ht in Heq.
    + intros [[-> [k ->]]|[-> (j & k & ->)]].
      * rewrite Unalias_aliases. simpl. by rewrite Unalias_aliases.
      * rewrite Unalias_aliases. simpl. by rewrite Unalias_aliases.
  - split.
    + destruct (Unalias_chain t) as [j Hj].
      destruct (types.Unalias t) as [n|elem|rhs|descr] eqn:Ht; simpl; try done.
      intros _. by exists j, elem.
    + intros (j & elem & ->). by rewrite Unalias_aliases.
  - intros j elem ->. by rewrite Unalias_aliases.
  - done.
Qed.

(** ** The two tables of the syntax walk *)

Section tables.
Variable env : Env.

Lemma foldl_visitDecl_app acc decls :
  foldl visitDecl acc decls = acc ++ (decls ≫= declared).
Proof.
  revert acc. induction decls as [|decl decls IH]; intros acc.
  - simpl. by rewrite app_nil_r.
  - cbn [foldl]. rewrite IH, bind_cons.
    destruct decl; simpl; by rewrite <- ?app_assoc.
Qed.

Lemma foldl_visitFile_app st files :
  (foldl visitFile st files).1
  = st.1 ++ (file ← files; packages.Decls file ≫= declared).
Proof.
  revert st. induction files as [|file files IH]; intros st.
  - simpl. by rewrite app_nil_r.
  - cbn [foldl]. rewrite IH, bind_cons. unfold visitFile. simpl.
    by rewrite foldl_visitDecl_app, app_assoc.
Qed.

Lemma foldl_visitPackage_app st pkgs :
  (foldl visitPackage st pkgs).1
  = st.1 ++ (p ← pkgs; file ← packages.Syntax p;
             packages.Decls file ≫= declared).
Proof.
  revert st. induction pkgs as [|p pkgs IH]; intros st.
  - simpl. by rewrite app_nil_r.
  - cbn [foldl]. rewrite IH, bind_cons. unfold visitPackage.
    by rewrite foldl_visitFile_app, app_assoc.
Qed.

(** The walk stores no value but [true]. *)
Lemma foldl_visitFile_true st files :
  (∀ name b, st.2 !! name = Some b → b = true) →
  ∀ name b, (foldl visitFile st files).2 !! name = Some b → b = true.
Proof.
  revert st. induction files as [|file files IH]; intros st Hst; [done|].
  cbn [foldl]. apply IH. intros name b. unfold visitFile. simpl.
  destruct (packages.IsGenerated file); [|apply Hst].
  destruct (decide (packages.FileName file = name)) as [->|Hne].
  - rewrite lookup_insert_eq. congruence.
  - rewrite lookup_insert_ne by done. apply Hst.
Qed.

Lemma foldl_visitPackage_true st pkgs :
  (∀ name b, st.2 !! name = Some b → b = true) →
  ∀ name b, (foldl visitPackage st pkgs).2 !! name = Some b → b = true.
Proof.
  revert st. induction pkgs as [|p pkgs IH]; intros st Hst; [done|].
  cbn [foldl]. apply IH. unfold visitPackage. by apply foldl_visitFile_true.
Qed.

End tables.

(** X8. The walk over the syntax trees leaves in [sourceFuncs] the
    functions of all function declarations, in the order the packages are
    visited, their files listed and their declarations written, a
    function declared twice being listed twice; and in [generated] the
    value [true] under the name of every file flagged as generated, and no
    other entry. *)
Theorem gather_tables (env : Env) (initial : list packages.Package) :
  sourceFuncs env initial
  = (p ← packages_Visit env initial; file ← packages.Syntax p;
     packages.Decls file ≫= declared)
  ∧ ∀ name,
      (generated env initial !! name = Some true
       ↔ ∃ p file, p ∈ packages_Visit env initial ∧ file ∈ packages.Syntax p
                   ∧ packages.IsGenerated file = true
                   ∧ packages.FileName file = name)
      ∧ generated env initial !! name ≠ Some false.
Proof.
  split.
  - unfold sourceFuncs, gather. by rewrite foldl_visitPackage_app.
  - intros name.
    assert (∀ b, generated env initial !! name = Some b → b = true) as Htrue.
    { intros b. unfold generated, gather. apply foldl_visitPackage_true.
      intros n b'. simpl. by rewrite lookup_empty. }
    split.
    + rewrite <- generated_index. unfold index.
      destruct (generated env initial !! name) as [b|] eqn:Hb; simpl.
      * rewrite (Htrue b eq_refl). done.
      * done.
    + intros Hfalse. by apply Htrue in Hfalse.
Qed.

(** ** The set of reachable positions, whatever the map order *)

Section reachable_map.
Variable env : Env.

Lemma foldl_markReachable_lookup l R p :
  foldl (markReachable env) R l !! p
  = if decide (Exists (λ fn, listed fn = true ∧ posn env fn = p) l)
    then Some true else R !! p.
Proof.
  revert R. induction l as [|fn l IH]; intros R.
  - done.
  - cbn [foldl]. rewrite IH. unfold markReachable. fold (listed fn).
    destruct (decide (Exists (λ fn, listed fn = true ∧ posn env fn = p) l))
      as [Hl|Hl].
    + rewrite decide_True; [done|]. by apply Exists_cons_tl.
    + destruct (listed fn) eqn:Hfn.
      * destruct (decide (posn env fn = p)) as [Hp|Hp].
        -- rewrite decide_True by (by apply Exists_cons_hd).
           rewrite <- Hp. by rewrite lookup_insert_eq.
        -- rewrite lookup_insert_ne by done. rewrite decide_False; [done|].
           intros [[? ?]|?]%Exists_cons; done.
      * rewrite decide_False; [done|].
        intros [[? ?]|?]%Exists_cons; [congruence|done].
Qed.

Lemma reachable_order rt1 rt2 res :
  reachable env rt1 res = reachable env rt2 res.
Proof.
  apply map_eq. intros p. unfold reachable.
  rewrite !foldl_markReachable_lookup.
  destruct (decide (Exists (λ fn, listed fn = true ∧ posn env fn = p)
                      (range rt1 (keys res)))) as [H1|H1];
    destruct (decide (Exists (λ fn, listed fn = true ∧ posn env fn = p)
                        (range rt2 (keys res)))) as [H2|H2]; try done.
  - exfalso. apply H2. rewrite Exists_exists in H1 |- *.
    destruct H1 as (fn & Hfn & ?). exists fn. split; [|done].
    by apply elem_of_range, (elem_of_range rt1).
  - exfalso. apply H1. rewrite Exists_exists in H2 |- *.
    destruct H2 as (fn & Hfn & ?). exists fn. split; [|done].
    by apply elem_of_range, (elem_of_range rt2).
Qed.

End reachable_map.

(** X9. The set of reachable positions holds [true] at exactly the
    positions of the functions the oracle lists that have a valid position
    or are named "init", and nothing else; neither it nor the grouping by
    package path depends on the order in which the runtime ranges over
    [res.Reachable]. *)
Theorem reachable_set_order_free (env : Env) (rt1 rt2 : MapOrder)
    (initial : list packages.Package) :
  (∀ p, (reachablePosn env rt1 initial !! p = Some true
         ↔ ∃ fn, is_Some (res env initial !! fn) ∧ listed fn = true
                 ∧ posn env fn = p)
        ∧ reachablePosn env rt1 initial !! p ≠ Some false)
  ∧ reachablePosn env rt1 initial = reachablePosn env rt2 initial
  ∧ byPkgPath env rt1 initial = byPkgPath env rt2 initial.
Proof.
  split_and!.
  - intros p. unfold reachablePosn, reachable.
    rewrite foldl_markReachable_lookup.
    destruct (decide (Exists (λ fn, listed fn = true ∧ posn env fn = p)
                        (range rt1 (keys (res env initial))))) as [H|H].
    + split; [|done]. split; [|done]. intros _.
      apply Exists_exists in H as (fn & Hfn & ? & ?). exists fn.
      split; [|done]. by apply elem_of_keys, (elem_of_range rt1).
    + rewrite lookup_empty. split; [|done]. split; [done|].
      intros (fn & Hfn & ? & ?). exfalso. apply H, Exists_exists.
      exists fn. split; [|done]. by apply elem_of_range, elem_of_keys.
  - apply reachable_order.
  - unfold byPkgPath, reachablePosn. by rewrite (reachable_order env rt1 rt2).
Qed.

(** ** The report of the sibling revision *)

(** X10. The sibling revision sorts the package paths before it reports:
    a run that gets past the checks returns the issues of functions in
    ascending order of package path, under every map order. *)
Theorem sibling_report_sorted (env : Env) (rt : MapOrder)
    (initial : list packages.Package) (re : regexp.Regexp) :
  Deadfunc.passes env initial re →
  Deadfunc.runAnalysis env rt
  = Deadfunc.Return
      (Deadfunc.issueOf env <$> Deadfunc.reportedFuncs env rt re initial, None)
  ∧ StronglySorted String.le
      (ssa.PkgPath <$> Deadfunc.reportedFuncs env rt re initial).
Proof.
  intros Hpass. split; [by apply deadfunc_run_passes|].
  apply survivors_sorted; [apply byPkgPath_sorted_out|].
  apply StronglySorted_merge_sort; apply _.
Qed.

(** X10 on the example program, ranged over backwards. *)
Lemma sibling_report_sorted_witness :
  StronglySorted String.le
    (ssa.PkgPath <$>
       Deadfunc.reportedFuncs Example.env Example.backwards
         (regexp.mkRegexp (Example.matchLiteral "app" true false))
         Example.initial).
Proof.
  refine (proj2 (sibling_report_sorted Example.env Example.backwards
                   Example.initial
                   (regexp.mkRegexp (Example.matchLiteral "app" true false)) _)).
  unfold Deadfunc.passes. split_and!.
  - reflexivity.
  - vm_compute. discriminate.
  - eexists. split; reflexivity.
  - discriminate.
Defined.

(** X11. The sibling revision filters by the module of the first package
    loaded: the pattern it compiles is ["^"], the quoted module path and
    ["\b"], or the empty pattern when the package has no module or the
    module no path; and a run that gets past the checks reports exactly
    the functions kept by the resolver whose package path the compiled
    pattern matches and whose file is not generated. *)
Theorem sibling_report_filtered (env : Env) (rt : MapOrder)
    (initial : list packages.Package) (re : regexp.Regexp)
    (first : packages.Package) :
  Deadfunc.passes env initial re →
  head initial = Some first →
  regexp_Compile env (Deadfunc.moduleFilter first) = inr re
  ∧ (∀ path, packages.Module_ first = Some (packages.mkModule path) →
             path ≠ "" →
             Deadfunc.moduleFilter first
             = "^" +:+ regexp.QuoteMeta path +:+ "\b")
  ∧ (packages.Module_ first = None
     ∨ packages.Module_ first = Some (packages.mkModule "") →
     Deadfunc.moduleFilter first = "")
  ∧ Deadfunc.runAnalysis env rt
    = Deadfunc.Return
        (Deadfunc.issueOf env <$> Deadfunc.reportedFuncs env rt re initial, None)
  ∧ ∀ fn,
      fn ∈ Deadfunc.reportedFuncs env rt re initial
      ↔ fn ∈ firsts env (reachablePosn env rt initial) (sourceFuncs env initial)
        ∧ regexp.MatchString re (ssa.PkgPath fn) = true
        ∧ index (generated env initial) (token.Filename (posn env fn)) = false.
Proof.
  intros Hpass Hfirst. split_and!.
  - destruct Hpass as (_ & _ & (first' & Hfirst' & Hre) & _). congruence.
  - intros path Hmod Hpath. unfold Deadfunc.moduleFilter. rewrite Hmod. simpl.
    by rewrite bool_decide_eq_true_2.
  - intros [Hmod|Hmod]; unfold Deadfunc.moduleFilter; by rewrite Hmod.
  - by apply deadfunc_run_passes.
  - intros fn. apply deadfunc_reported_elem.
Qed.

(** X11 on the example program: [Idle] of [dep/x] is kept by the resolver
    and left out by the filter of module [app]. *)
Lemma sibling_report_filtered_witness :
  Example.f_idle ∈ firsts Example.env
                     (reachablePosn Example.env Example.forwards Example.initial)
                     (sourceFuncs Example.env Example.initial)
  ∧ ¬ Example.f_idle
      ∈ Deadfunc.reportedFuncs Example.env Example.forwards
          (regexp.mkRegexp (Example.matchLiteral "app" true false))
          Example.initial.
Proof.
  destruct (sibling_report_filtered Example.env Example.forwards Example.initial
              (regexp.mkRegexp (Example.matchLiteral "app" true false))
              (Example.pkg_app Example.app_decls))
    as (_ & _ & _ & _ & Hfn).
  - unfold Deadfunc.passes. split_and!.
    + reflexivity.
    + vm_compute. discriminate.
    + eexists. split; reflexivity.
    + discriminate.
  - reflexivity.
  - split; [evaluate|]. intros (_ & Hmatch & _)%Hfn. vm_compute in Hmatch.
    discriminate.
Defined.

(** X13. The sibling revision loads without tests and ends the process
    with a message of its own at each check, taken in this order: the
    load, the number of packages, their errors, the filter derived from
    the first package, the main packages. *)
Theorem sibling_fatal_messages (env : Env) (rt : MapOrder) :
  (∀ err, packages_Load env false = inl err →
     Deadfunc.runAnalysis env rt = Deadfunc.Fatal ("Load: " +:+ err))
  ∧ (packages_Load env false = inr [] →
     Deadfunc.runAnalysis env rt = Deadfunc.Fatal "no packages")
  ∧ (∀ initial,
       packages_Load env false = inr initial → initial ≠ [] →
       (0 < packages_PrintErrors env initial)%Z →
       Deadfunc.runAnalysis env rt = Deadfunc.Fatal "packages contain errors")
  ∧ (∀ first rest err,
       packages_Load env false = inr (first :: rest) →
       (packages_PrintErrors env (first :: rest) ≤ 0)%Z →
       regexp_Compile env (Deadfunc.moduleFilter first) = inl err →
       Deadfunc.runAnalysis env rt = Deadfunc.Fatal ("-filter: " +:+ err))
  ∧ (∀ first rest re,
       packages_Load env false = inr (first :: rest) →
       (packages_PrintErrors env (first :: rest) ≤ 0)%Z →
       regexp_Compile env (Deadfunc.moduleFilter first) = inr re →
       mains env (first :: rest) = [] →
       Deadfunc.runAnalysis env rt = Deadfunc.Fatal "no main packages").
Proof.
  unfold Deadfunc.runAnalysis. split_and!.
  - by intros err ->.
  - by intros ->.
  - intros initial -> Hne Herr. destruct initial as [|first rest]; [done|].
    by rewrite bool_decide_eq_true_2.
  - intros first rest err -> Herr Hre.
    rewrite bool_decide_eq_false_2 by lia.
    rewrite bool_decide_eq_true_2 by done. by rewrite Hre.
  - intros first rest re -> Herr Hre Hmains.
    rewrite bool_decide_eq_false_2 by lia.
    rewrite bool_decide_eq_true_2 by done. rewrite Hre, Hmains.
    by rewrite bool_decide_eq_true_2.
Qed.

(** ** Which functions are reported, and how many *)

Lemma firsts_first (env : Env) seen l G :
  G ∈ firsts env seen l →
  ∃ i, l !! i = Some G
       ∧ ∀ j F, j < i → l !! j = Some F → posn env F ≠ posn env G.
Proof.
  revert seen. induction l as [|fn l IH]; intros seen; simpl.
  - by intros ?%elem_of_nil.
  - destruct (index seen (posn env fn)) eqn:Hfn.
    + intros HG. destruct (IH seen HG) as (i & Hi & Hbefore).
      exists (S i). split; [done|]. intros [|j] F Hj HF.
      * simpl in HF. injection HF as <-. apply not_eq_sym.
        by eapply firsts_posn_seen.
      * simpl in HF. apply (Hbefore j); [lia|done].
    + intros [->|HG]%elem_of_cons.
      * exists 0. split; [done|]. intros j F Hj. lia.
      * destruct (IH _ HG) as (i & Hi & Hbefore).
        exists (S i). split; [done|]. intros [|j] F Hj HF.
        -- simpl in HF. injection HF as <-. apply not_eq_sym.
           eapply firsts_posn_seen; [exact HG|]. apply index_insert. by left.
        -- simpl in HF. apply (Hbefore j); [lia|done].
Qed.

(** X15. Of the functions declared at one position the one reported is
    the first in [sourceFuncs]: a reported function stands in
    [sourceFuncs] with no function of the same position before it. The
    same holds in the sibling revision. *)
Theorem first_declared_reported (env : Env) (rt : MapOrder)
    (re : option regexp.Regexp) (initial : list packages.Package)
    (G : ssa.Function) :
  G ∈ Deadcode.reportedFuncs env rt re initial →
  (∃ i, sourceFuncs env initial !! i = Some G
        ∧ ∀ j F, j < i → sourceFuncs env initial !! j = Some F →
                 posn env F ≠ posn env G)
  ∧ ∀ re', G ∈ Deadfunc.reportedFuncs env rt re' initial →
           ∃ i, sourceFuncs env initial !! i = Some G
                ∧ ∀ j F, j < i → sourceFuncs env initial !! j = Some F →
                         posn env F ≠ posn env G.
Proof.
  intros (HG & _)%deadcode_reported_elem. split.
  - by eapply firsts_first.
  - intros _ _. by eapply firsts_first.
Qed.

(** X15 on the example program with the test variant of [app] loaded:
    [helper] of [app] is reported, not the function of the variant. *)
Lemma first_declared_reported_witness :
  ∃ i, sourceFuncs Example.tested Example.tested_initial !! i
       = Some Example.f_helper
       ∧ ∀ j F, j < i →
                sourceFuncs Example.tested Example.tested_initial !! j = Some F →
                posn Example.tested F ≠ posn Example.tested Example.f_helper.
Proof.
  refine (proj1 (first_declared_reported Example.tested Example.forwards
                   Example.under_app Example.tested_initial Example.f_helper _)).
  evaluate.
Defined.

(** X16. The issues of a run are as many as the functions the resolver
    keeps whose package the filter lets through and whose file is not
    generated: the reported functions are those, rearranged. *)
Theorem report_rearranges (env : Env) (rt : MapOrder)
    (settings : Deadcode.Settings) (initial : list packages.Package)
    (re : option regexp.Regexp) :
  Deadcode.passes env settings initial re →
  Deadcode.reportedFuncs env rt re initial
  ≡ₚ filter (λ fn, Deadcode.skipped re (ssa.PkgPath fn) = false
                   ∧ index (generated env initial)
                       (token.Filename (posn env fn)) = false)
       (firsts env (reachablePosn env rt initial) (sourceFuncs env initial))
  ∧ length (Deadcode.runAnalysis env rt settings).1
    = length
        (filter (λ fn, Deadcode.skipped re (ssa.PkgPath fn) = false
                       ∧ index (generated env initial)
                           (token.Filename (posn env fn)) = false)
           (firsts env (reachablePosn env rt initial) (sourceFuncs env initial))).
Proof.
  intros Hpass.
  assert (Deadcode.reportedFuncs env rt re initial
          ≡ₚ filter (λ fn, Deadcode.skipped re (ssa.PkgPath fn) = false
                           ∧ index (generated env initial)
                               (token.Filename (posn env fn)) = false)
               (firsts env (reachablePosn env rt initial)
                  (sourceFuncs env initial))) as Hperm.
  { apply NoDup_Permutation.
    - eapply NoDup_fmap_1, deadcode_reported_NoDup.
    - apply NoDup_filter. eapply NoDup_fmap_1, firsts_NoDup.
    - intros fn. rewrite deadcode_reported_elem, list_elem_of_filter.
      split; [by intros (? & ? & ?)|by intros [[? ?] ?]]. }
  split; [done|].
  rewrite (deadcode_run_passes env rt settings initial re Hpass). simpl.
  by rewrite length_fmap, Hperm.
Qed.

(** X16 on the example program under the filter ["^app"]: three issues. *)
Lemma report_rearranges_witness :
  length (Deadcode.runAnalysis Example.env Example.backwards
            (Deadcode.mkSettings false "^app")).1
  = length
      (filter (λ fn, Deadcode.skipped Example.under_app (ssa.PkgPath fn) = false
                     ∧ index (generated Example.env Example.initial)
                         (token.Filename (posn Example.env fn)) = false)
         (firsts Example.env
            (reachablePosn Example.env Example.backwards Example.initial)
            (sourceFuncs Example.env Example.initial))).
Proof.
  refine (proj2 (report_rearranges Example.env Example.backwards
                   (Deadcode.mkSettings false "^app") Example.initial
                   Example.under_app _)).
  unfold Deadcode.passes. split_and!.
  - reflexivity.
  - discriminate.
  - vm_compute. discriminate.
  - reflexivity.
  - discriminate.
Defined.

(** ** The two revisions side by side *)

(** X17. Given the sibling's pattern as its filter, [deadcode.go] reports
    the same functions as the sibling revision, in an order of its own:
    when both runs get past their checks with the same compiled pattern,
    their reported functions are rearrangements of each other, and so are
    their issues read as (name, file, line). *)
Theorem revisions_agree (env : Env) (rt rt' : MapOrder)
    (settings : Deadcode.Settings) (initial : list packages.Package)
    (re : regexp.Regexp) :
  Deadcode.passes env settings initial (Some re) →
  Deadfunc.passes env initial re →
  Deadcode.reportedFuncs env rt (Some re) initial
  ≡ₚ Deadfunc.reportedFuncs env rt' re initial
  ∧ ∃ issues,
      Deadfunc.runAnalysis env rt' = Deadfunc.Return (issues, None)
      ∧ (Deadcode.runAnalysis env rt settings).1
        ≡ₚ (λ i, Deadcode.mkIssue (Deadfunc.Name i) (Deadfunc.Filename i)
                   (Deadfunc.Line i)) <$> issues.
Proof.
  intros Hpass Hpass'.
  assert (Deadcode.reportedFuncs env rt (Some re) initial
          ≡ₚ Deadfunc.reportedFuncs env rt' re initial) as Hperm.
  { apply NoDup_Permutation.
    - eapply NoDup_fmap_1, deadcode_reported_NoDup.
    - eapply NoDup_fmap_1, deadfunc_reported_posn_NoDup.
    - intros fn. rewrite deadcode_reported_elem, deadfunc_reported_elem.
      rewrite (firsts_order env rt rt'). simpl. by rewrite negb_false_iff. }
  split; [done|].
  exists (Deadfunc.issueOf env <$> Deadfunc.reportedFuncs env rt' re initial).
  split; [by apply deadfunc_run_passes|].
  rewrite (deadcode_run_passes env rt settings initial (Some re) Hpass). simpl.
  rewrite Hperm, <- list_fmap_compose. done.
Qed.

(** X17 on the example program, with the filter ["^app\b"]. *)
Lemma revisions_agree_witness :
  Deadcode.reportedFuncs Example.env Example.forwards
    (Some (regexp.mkRegexp (Example.matchLiteral "app" true false)))
    Example.initial
  ≡ₚ Deadfunc.reportedFuncs Example.env Example.backwards
       (regexp.mkRegexp (Example.matchLiteral "app" true false)) Example.initial.
Proof.
  refine (proj1 (revisions_agree Example.env Example.forwards Example.backwards
                   (Deadcode.mkSettings false "^app\b") Example.initial
                   (regexp.mkRegexp (Example.matchLiteral "app" true false))
                   _ _)).
  - unfold Deadcode.passes. split_and!.
    + reflexivity.
    + discriminate.
    + vm_compute. discriminate.
    + reflexivity.
    + discriminate.
  - unfold Deadfunc.passes. split_and!.
    + reflexivity.
    + vm_compute. discriminate.
    + eexists. split; reflexivity.
    + discriminate.
Defined.
